(** * Stock-check handler: a shallow embedding of [src/handler.ts]

    The development follows the source file top to bottom:

    - JavaScript strings (sequences of UTF-16 code units) with the few
      built-ins the handler calls: [trim], [includes], template
      concatenation, and the two regular-expression literals;
    - [validateEnvironment] over [process.env];
    - the Cheerio selection [$("#add")] seen through the observations the
      handler makes of it, [isElementLocked] and the availability evaluator;
    - the [handler] itself, written in a small state-and-exception monad
      whose state is the list of attempted SES sends.

    Libraries outside the repository (the WHATWG [URL] parser, Cheerio's
    HTML parser, [String.prototype.toLowerCase]'s Unicode tables, [fetch]
    and the SES client) are parameters of the model. *)

From stdpp Require Import base option list strings pretty gmap.

Set Default Proof Using "Type".

(** ** JavaScript strings *)

(** A JavaScript string is a sequence of UTF-16 code units. *)
Abbreviation code_unit := N (only parsing).
Abbreviation jsstring := (list N) (only parsing).

Open Scope N_scope.

(** An ASCII literal of the source as a code-unit sequence. *)
Fixpoint lit (s : string) : jsstring :=
  match s with
  | EmptyString => []
  | String a s' => Ascii.N_of_ascii a :: lit s'
  end.

(** [WhiteSpace] and [LineTerminator] of ECMA-262: the code units removed by
    [String.prototype.trim] and matched by the class escape [\s]. *)
Definition isWhiteSpace (c : N) : bool :=
  ((9 <=? c) && (c <=? 13))          (* TAB LF VT FF CR *)
  || (c =? 32)                       (* SPACE *)
  || (c =? 160)                      (* NO-BREAK SPACE *)
  || (c =? 5760)                     (* U+1680 *)
  || ((8192 <=? c) && (c <=? 8202))  (* U+2000 .. U+200A *)
  || (c =? 8232) || (c =? 8233)      (* U+2028, U+2029 *)
  || (c =? 8239)                     (* U+202F *)
  || (c =? 8287)                     (* U+205F *)
  || (c =? 12288)                    (* U+3000 *)
  || (c =? 65279).                   (* U+FEFF *)

Fixpoint trimStart (s : jsstring) : jsstring :=
  match s with
  | [] => []
  | c :: s' => if isWhiteSpace c then trimStart s' else s
  end.

Definition trimEnd (s : jsstring) : jsstring :=
  reverse (trimStart (reverse s)).

(** [String.prototype.trim]. *)
Definition trim (s : jsstring) : jsstring := trimEnd (trimStart s).

Fixpoint startsWith (p s : jsstring) : bool :=
  match p, s with
  | [], _ => true
  | _ :: _, [] => false
  | a :: p', b :: s' => (a =? b) && startsWith p' s'
  end.

(** [s.includes(c)]: [c] occurs in [s] at some index. *)
Fixpoint includes (c s : jsstring) : bool :=
  startsWith c s ||
  match s with
  | [] => false
  | _ :: s' => includes c s'
  end.

(** ASCII case mapping: the restriction of the Unicode simple case mapping
    to code units below 128. *)
Definition asciiUpper (c : N) : N :=
  if (97 <=? c) && (c <=? 122) then c - 32 else c.

Definition asciiLower (c : N) : N :=
  if (65 <=? c) && (c <=? 90) then c + 32 else c.

(** [`${n}`] for a non-negative integer Number. *)
Definition decimal (n : N) : jsstring := lit (pretty n).

(** ** Regular expressions

    The two literals of the source use character classes, concatenation,
    [+] and [*] only, so [RegExp.prototype.test] is decided by language
    membership; it is computed here with derivatives. *)

Module Regex.

Inductive regex : Type :=
| Void : regex
| Eps : regex
| Class (p : N -> bool) : regex
| Cat (r1 r2 : regex) : regex
| Alt (r1 r2 : regex) : regex
| Star (r : regex) : regex.

(** [r+] *)
Definition Plus (r : regex) : regex := Cat r (Star r).

(** A literal character without the [i] flag. *)
Definition Chr (c : N) : regex := Class (N.eqb c).

(** A literal ASCII character [p] under the [i] flag (no [u] flag).
    ECMA-262 compares [Canonicalize(ch)] with [Canonicalize(p)], where
    [Canonicalize] upper-cases a code unit but leaves it alone when the
    code unit is at least 128 and its upper case is below 128: a code
    unit outside ASCII never matches an ASCII pattern character. *)
Definition ChrI (p : N) : regex :=
  Class (fun ch => (ch <? 128) && (asciiUpper ch =? asciiUpper p)).

(** [\s] *)
Definition WhiteSpace : regex := Class isWhiteSpace.

(** A literal ASCII word under the [i] flag. *)
Fixpoint WordI (w : jsstring) : regex :=
  match w with
  | [] => Eps
  | c :: w' => Cat (ChrI c) (WordI w')
  end.

Fixpoint nullable (r : regex) : bool :=
  match r with
  | Void => false
  | Eps => true
  | Class _ => false
  | Cat r1 r2 => nullable r1 && nullable r2
  | Alt r1 r2 => nullable r1 || nullable r2
  | Star _ => true
  end.

Fixpoint deriv (c : N) (r : regex) : regex :=
  match r with
  | Void => Void
  | Eps => Void
  | Class p => if p c then Eps else Void
  | Cat r1 r2 =>
      if nullable r1
      then Alt (Cat (deriv c r1) r2) (deriv c r2)
      else Cat (deriv c r1) r2
  | Alt r1 r2 => Alt (deriv c r1) (deriv c r2)
  | Star r1 => Cat (deriv c r1) (Star r1)
  end.

(** The whole of [s] is a match of [r]: the pattern [^r$]. *)
Fixpoint matchesb (r : regex) (s : jsstring) : bool :=
  match s with
  | [] => nullable r
  | c :: s' => matchesb (deriv c r) s'
  end.

(** Some prefix of [s] is a match of [r]: a match attempt at index 0. *)
Fixpoint matchesPrefix (r : regex) (s : jsstring) : bool :=
  nullable r ||
  match s with
  | [] => false
  | c :: s' => matchesPrefix (deriv c r) s'
  end.

(** [/r/.test(s)] for an unanchored pattern: the match is attempted at
    index 0, then 1, and so on up to the end of the input. *)
Fixpoint test (r : regex) (s : jsstring) : bool :=
  matchesPrefix r s ||
  match s with
  | [] => false
  | _ :: s' => test r s'
  end.

(** The language of a pattern. *)
Inductive Matches : regex -> jsstring -> Prop :=
| MEps : Matches Eps []
| MClass p c : p c = true -> Matches (Class p) [c]
| MCat r1 r2 s1 s2 :
    Matches r1 s1 -> Matches r2 s2 -> Matches (Cat r1 r2) (s1 ++ s2)
| MAltL r1 r2 s : Matches r1 s -> Matches (Alt r1 r2) s
| MAltR r1 r2 s : Matches r2 s -> Matches (Alt r1 r2) s
| MStarNil r : Matches (Star r) []
| MStarApp r s1 s2 :
    Matches r s1 -> Matches (Star r) s2 -> Matches (Star r) (s1 ++ s2).

End Regex.

(** ** The host platform

    What the handler calls but the repository does not define. *)

(** A Cheerio selection, seen through the observations the handler makes
    of it. [cheerio_attribs] is the attribute object that [el.attr(name)]
    reads ([undefined] when the name is not a key); [cheerio_is] answers
    [el.is(selector)]. *)
Record Cheerio : Type := {
  cheerio_length : nat;
  cheerio_is : string -> bool;
  cheerio_attribs : gmap string (list N);
  cheerio_text : list N
}.

Class Host : Type := {
  (** [String.prototype.toLowerCase] *)
  toLowerCase : jsstring -> jsstring;
  (** on an ASCII string it maps [A]..[Z] to [a]..[z] and nothing else *)
  toLowerCase_ascii :
    forall s, Forall (fun c => c < 128) s -> toLowerCase s = map asciiLower s;
  (** [new URL(s)] returns instead of throwing *)
  URL_parses : jsstring -> bool;
  (** [load(html)(selector)] *)
  cheerio_select : jsstring -> string -> Cheerio
}.

(** A thrown JavaScript value: an [Error] instance with its [name] and
    [message], or any other value with the string [String(err)] gives. *)
Inductive Thrown : Type :=
| ErrorObject (name message : jsstring)
| OtherValue (asString : jsstring).

(** [new Error(message)] *)
Definition newError (message : string) : Thrown :=
  ErrorObject (lit "Error") (lit message).

(** Truthiness of a value that is a string or [undefined]. *)
Definition truthy (v : option jsstring) : bool :=
  match v with
  | Some (_ :: _) => true
  | _ => false
  end.

(** [v || d] for [v] a string or [undefined] and [d] a string. *)
Definition orElse (v : option jsstring) (d : jsstring) : jsstring :=
  match v with
  | Some (c :: s) => c :: s
  | _ => d
  end.

(** ** Environment validation *)

Record ValidatedConfig : Type := {
  region : jsstring;
  targetUrl : jsstring;
  toEmail : jsstring;
  fromEmail : jsstring
}.

(** [/^[^\s@]+@[^\s@]+\.[^\s@]+$/] *)
Definition emailRegex : Regex.regex :=
  let atom := Regex.Class (fun c => negb (isWhiteSpace c || (c =? 64))) in
  Regex.Cat (Regex.Plus atom)
    (Regex.Cat (Regex.Chr 64)
       (Regex.Cat (Regex.Plus atom)
          (Regex.Cat (Regex.Chr 46) (Regex.Plus atom)))).

(** A code unit the e-mail pattern accepts outside the two separators:
    neither white space nor "@". *)
Definition emailAtom (c : N) : Prop := isWhiteSpace c = false /\ c <> 64.

(** The shape [local@domain.tld]: a local part, one "@", and a remainder
    with a "." strictly inside it; the three parts are non-empty and free
    of white space and of "@". *)
Definition emailShaped (s : jsstring) : Prop :=
  exists l d t,
    s = l ++ [64] ++ d ++ [46] ++ t
    /\ l <> [] /\ d <> [] /\ t <> []
    /\ Forall emailAtom l /\ Forall emailAtom d /\ Forall emailAtom t.

(** [emailRegex.test(s)]; the pattern is anchored at both ends. *)
Definition emailRegex_test (s : jsstring) : bool :=
  Regex.matchesb emailRegex s.

Definition validateEnvironment `{Host} (env : gmap string (list N))
  : Thrown + ValidatedConfig :=
  let region :=
    orElse (env !! "AWS_REGION"%string)
      (orElse (env !! "AWS_DEFAULT_REGION"%string) (lit "us-east-1")) in
  let targetUrl := env !! "TARGET_URL"%string in
  let toEmail := env !! "TO_EMAIL"%string in
  let fromEmail := env !! "FROM_EMAIL"%string in
  if negb (truthy targetUrl) then
    inl (newError "TARGET_URL environment variable is required")
  else if negb (truthy toEmail) || negb (truthy fromEmail) then
    inl (newError "TO_EMAIL and FROM_EMAIL environment variables are required")
  else
    let targetUrl := default [] targetUrl in
    let toEmail := default [] toEmail in
    let fromEmail := default [] fromEmail in
    if negb (URL_parses targetUrl) then
      inl (newError "TARGET_URL must be a valid URL")
    else if negb (emailRegex_test toEmail) then
      inl (newError "TO_EMAIL must be a valid email address")
    else if negb (emailRegex_test fromEmail) then
      inl (newError "FROM_EMAIL must be a valid email address")
    else
      inr {| region := region; targetUrl := targetUrl;
             toEmail := toEmail; fromEmail := fromEmail |}.

(** A variable of [process.env] is unset or set to the empty string. *)
Definition unset (env : gmap string (list N)) (name : string) : Prop :=
  env !! name = None \/ env !! name = Some [].

(** ** The availability evaluator *)

Record CheckResult : Type := {
  exists_ : bool;
  text : jsstring;
  saysAddToCart : bool;
  locked : bool
}.

Inductive HandlerResponse : Type :=
| HandlerSuccess (notified : bool) (result : CheckResult)
| HandlerFetchFail (message : jsstring)
| HandlerError (error : jsstring).

(** The [ok] field of the response. *)
Definition ok (r : HandlerResponse) : bool :=
  match r with
  | HandlerSuccess _ _ => true
  | _ => false
  end.

(** [el.attr(name)] *)
Definition attr (el : Cheerio) (name : string) : option jsstring :=
  cheerio_attribs el !! name.

Definition lockedClasses : list jsstring :=
  [lit "disabled"; lit "soldout"; lit "locked"; lit "unavailable"].

Definition isElementLocked `{Host} (el : Cheerio) : bool :=
  if (cheerio_length el =? 0)%nat then true
  else
    let hasDisabledAttr :=
      cheerio_is el ":disabled" || bool_decide (is_Some (attr el "disabled")) in
    let ariaDisabled :=
      bool_decide (toLowerCase (orElse (attr el "aria-disabled") []) = lit "true") in
    let classStr := toLowerCase (orElse (attr el "class") []) in
    let classIndicatesLocked :=
      existsb (fun c => includes c classStr) lockedClasses in
    let dataLocked :=
      bool_decide (toLowerCase (orElse (attr el "data-locked") []) = lit "true") in
    hasDisabledAttr || ariaDisabled || classIndicatesLocked || dataLocked.

(** [/add\s*to\s*cart/i] *)
Definition addToCartRegex : Regex.regex :=
  Regex.Cat (Regex.WordI (lit "add"))
    (Regex.Cat (Regex.Star Regex.WhiteSpace)
       (Regex.Cat (Regex.WordI (lit "to"))
          (Regex.Cat (Regex.Star Regex.WhiteSpace)
             (Regex.WordI (lit "cart"))))).

(** Lines 170 to 177 of the handler: from the markup to the [CheckResult]. *)
Definition evaluate `{Host} (html : jsstring) : CheckResult :=
  let addEl := cheerio_select html "#add" in
  let exists_ := (0 <? cheerio_length addEl)%nat in
  let text := if exists_ then trim (cheerio_text addEl) else [] in
  let saysAddToCart := Regex.test addToCartRegex text in
  let locked := isElementLocked addEl in
  {| exists_ := exists_; text := text;
     saysAddToCart := saysAddToCart; locked := locked |}.

(** ** Effects of one invocation *)

(** The HTML bodies of the three e-mails are template literals; each is
    kept as the template's name with the values interpolated into it
    (clock readings apart). *)
Inductive HtmlBody : Type :=
| ServerErrorBody (status : N) (statusText url : jsstring)
| StockAvailableBody (url buttonText executionId : jsstring)
| CheckFailedBody (isAbortError : bool)
    (errorMessage url executionId : jsstring).

Record SendEmailCommand : Type := {
  ToAddresses : list (list N);
  Subject : jsstring;
  Html : HtmlBody;
  Source : jsstring
}.

(** What [await fetch(...)] resolves to, as far as the handler reads it;
    [body_text] is the outcome of [await res.text()]. *)
Record Response : Type := {
  res_ok : bool;
  status : N;
  statusText : jsstring;
  body_text : Thrown + jsstring
}.

(** The outside world during one invocation. *)
Record World : Type := {
  (** [await fetch(url, { headers, signal })]: rejects (network error, or
      [AbortError] once the 25 s timer fires) or resolves *)
  fetch : jsstring -> Thrown + Response;
  (** [await ses.send(cmd)]: rejects or resolves with a [MessageId] *)
  ses_send : SendEmailCommand -> Thrown + jsstring;
  (** [Date.now()] at the start of the invocation *)
  now : N
}.

(** Observable actions, in program order. *)
Inductive Effect : Type :=
| Fetched (url : jsstring)
| SendAttempted (cmd : SendEmailCommand).

(** A computation may throw, and extends the trace of effects in either
    case. *)
Definition M (A : Type) : Type := list Effect -> (Thrown + A) * list Effect.

Definition ret {A} (a : A) : M A := fun tr => (inr a, tr).

Definition throw {A} (e : Thrown) : M A := fun tr => (inl e, tr).

Definition bind {A B} (m : M A) (k : A -> M B) : M B :=
  fun tr =>
    match m tr with
    | (inr a, tr') => k a tr'
    | (inl e, tr') => (inl e, tr')
    end.

(** [try { m } catch (e) { h e }] *)
Definition try_catch {A} (m : M A) (h : Thrown -> M A) : M A :=
  fun tr =>
    match m tr with
    | (inr a, tr') => (inr a, tr')
    | (inl e, tr') => h e tr'
    end.

(** Performs an effect whose outcome the world decides. *)
Definition perform {A} (ev : Effect) (outcome : Thrown + A) : M A :=
  fun tr => (outcome, tr ++ [ev]).

Notation "'let*' x ':=' m 'in' k" := (bind m (fun x => k))
  (at level 10, x name, m at level 100, k at level 200,
   format "'[v' 'let*'  x  ':='  m  'in' '/' k ']'").

(** [new SendEmailCommand({ Destination, Message, Source })] *)
Definition newSendEmailCommand (config : ValidatedConfig)
    (subject : jsstring) (html : HtmlBody) : SendEmailCommand :=
  {| ToAddresses := [toEmail config];
     Subject := subject;
     Html := html;
     Source := fromEmail config |}.

(** [sendEmail]: one [ses.send]; a rejection is logged and rethrown. *)
Definition sendEmail (config : ValidatedConfig) (w : World)
    (subject : jsstring) (html : HtmlBody) : M jsstring :=
  let cmd := newSendEmailCommand config subject html in
  try_catch (perform (SendAttempted cmd) (ses_send w cmd))
            (fun error => throw error).

(** The e-mail sent when the stock is available. Its subject starts with
    U+1F389, a surrogate pair in UTF-16. *)
Definition stockAvailableSubject : jsstring :=
  [55356; 57225] ++ lit " Item In Stock Alert - Add to Cart Available!".

(** [err instanceof Error ? err.message : String(err)] *)
Definition errorMessageOf (err : Thrown) : jsstring :=
  match err with
  | ErrorObject _ message => message
  | OtherValue s => s
  end.

(** [err instanceof Error && err.name === 'AbortError'] *)
Definition isAbortErrorOf (err : Thrown) : bool :=
  match err with
  | ErrorObject name _ => bool_decide (name = lit "AbortError")
  | OtherValue _ => false
  end.

(** [event?.source || `execution-${Date.now()}`] *)
Definition executionIdOf (w : World) (event : option jsstring) : jsstring :=
  orElse event (lit "execution-" ++ decimal (now w)).

(** The exported [handler]. [event] is the [source] field of the event
    when there is one. Console output and the [finally] block, which only
    logs, leave no trace in the model. *)
Definition handler `{Host} (config : ValidatedConfig) (w : World)
    (event : option jsstring) : M HandlerResponse :=
  let executionId := executionIdOf w event in
  try_catch
    (let* res := perform (Fetched (targetUrl config))
                   (fetch w (targetUrl config)) in
     if negb (res_ok res) then
       let msg :=
         lit "HTTP " ++ decimal (status res) ++ lit " " ++ statusText res
         ++ lit " when fetching " ++ targetUrl config in
       let* _ :=
         if 500 <=? status res then
           try_catch
             (let* _ := sendEmail config w
                          (lit "Stock check: Server error detected")
                          (ServerErrorBody (status res) (statusText res)
                             (targetUrl config)) in
              ret tt)
             (fun emailError => ret tt)
         else ret tt in
       ret (HandlerFetchFail msg)
     else
       let* html := (fun tr => (body_text res, tr)) in
       if bool_decide (html = []) || (length (trim html) =? 0)%nat then
         ret (HandlerFetchFail (lit "Received empty response from target URL"))
       else
         let result := evaluate html in
         if exists_ result && saysAddToCart result && negb (locked result) then
           try_catch
             (let* _ := sendEmail config w stockAvailableSubject
                          (StockAvailableBody (targetUrl config) (text result)
                             executionId) in
              ret (HandlerSuccess true result))
             (fun emailError => ret (HandlerSuccess false result))
         else
           ret (HandlerSuccess false result))
    (fun err =>
       let errorMessage := errorMessageOf err in
       let isAbortError := isAbortErrorOf err in
       let* _ :=
         try_catch
           (let* _ := sendEmail config w
                        (if isAbortError then lit "Stock check timeout"
                         else lit "Stock check system error")
                        (CheckFailedBody isAbortError errorMessage
                           (targetUrl config) executionId) in
            ret tt)
           (fun emailError => ret tt) in
       ret (HandlerError errorMessage)).

(** Loading the module and then invoking the handler once, from an empty
    trace: the module-level [validateEnvironment()] runs first, and when
    it throws the module fails to load and nothing else happens. *)
Definition invoke `{Host} (env : gmap string (list N)) (w : World)
    (event : option jsstring) : (Thrown + HandlerResponse) * list Effect :=
  match validateEnvironment env with
  | inl error => (inl error, [])
  | inr config => handler config w event []
  end.

(** The three commands the handler can pass to [ses.send]. *)
Definition serverErrorEmail (config : ValidatedConfig) (res : Response)
  : SendEmailCommand :=
  newSendEmailCommand config (lit "Stock check: Server error detected")
    (ServerErrorBody (status res) (statusText res) (targetUrl config)).

Definition stockAvailableEmail (config : ValidatedConfig) (w : World)
    (event : option jsstring) (result : CheckResult) : SendEmailCommand :=
  newSendEmailCommand config stockAvailableSubject
    (StockAvailableBody (targetUrl config) (text result)
       (executionIdOf w event)).

Definition checkFailedEmail (config : ValidatedConfig) (w : World)
    (event : option jsstring) (err : Thrown) : SendEmailCommand :=
  newSendEmailCommand config
    (if isAbortErrorOf err then lit "Stock check timeout"
     else lit "Stock check system error")
    (CheckFailedBody (isAbortErrorOf err) (errorMessageOf err)
       (targetUrl config) (executionIdOf w event)).

(** [ses.send(cmd)] resolves. *)
Definition delivered (w : World) (cmd : SendEmailCommand) : bool :=
  match ses_send w cmd with
  | inr _ => true
  | inl _ => false
  end.

(** The message of the [HandlerFetchFail] for a non-success status. *)
Definition httpFailureMessage (config : ValidatedConfig) (res : Response)
  : jsstring :=
  lit "HTTP " ++ decimal (status res) ++ lit " " ++ statusText res
  ++ lit " when fetching " ++ targetUrl config.

(** The e-mails attempted in a trace. *)
Definition sendAttempts (tr : list Effect) : list SendEmailCommand :=
  omap (fun ev => match ev with
                  | SendAttempted cmd => Some cmd
                  | Fetched _ => None
                  end) tr.

(** The response with its [notified] flag cleared. *)
Definition eraseNotified (r : HandlerResponse) : HandlerResponse :=
  match r with
  | HandlerSuccess _ result => HandlerSuccess false result
  | _ => r
  end.

(** ** A host to run the model on examples

    Lower-casing is ASCII lower-casing, every string parses as a URL, and
    every selection on every document is [selection]. *)
Definition stubHost (selection : Cheerio) : Host :=
  {| toLowerCase := map asciiLower;
     toLowerCase_ascii := fun _ _ => eq_refl;
     URL_parses := fun _ => true;
     cheerio_select := fun _ _ => selection |}.

(** [$("#add")] on a document without such an element. *)
Definition noElement : Cheerio :=
  {| cheerio_length := 0;
     cheerio_is := fun _ => false;
     cheerio_attribs := ∅;
     cheerio_text := [] |}.

(** [$("#add")] on a document with one element of the given attributes
    and text, in a position where [:disabled] holds exactly when the
    element has the [disabled] attribute. *)
Definition oneElement (attribs : gmap string (list N)) (text : jsstring)
  : Cheerio :=
  {| cheerio_length := 1;
     cheerio_is := fun sel =>
       bool_decide (sel = ":disabled"%string)
       && bool_decide (is_Some (attribs !! "disabled"%string));
     cheerio_attribs := attribs;
     cheerio_text := text |}.

(** The selections and pages of the three scenarios of the test suite. *)
Definition addButton : Cheerio := oneElement ∅ (lit " Add to Cart ").

Definition disabledButton : Cheerio :=
  oneElement {[ "disabled"%string := [] ]} (lit " Add to Cart ").

Definition addButtonPage : jsstring :=
  lit "<button id='add'> Add to Cart </button>".

Definition disabledButtonPage : jsstring :=
  lit "<button id='add' disabled> Add to Cart </button>".

Definition noButtonPage : jsstring := lit "<div>No add button here</div>".

(** [process.env] with the three required variables. *)
Definition envOf (url to from : jsstring) : gmap string (list N) :=
  {[ "TARGET_URL"%string := url;
     "TO_EMAIL"%string := to;
     "FROM_EMAIL"%string := from ]}.

Definition exampleConfig : ValidatedConfig :=
  {| region := lit "us-east-1";
     targetUrl := lit "https://shop.example/item";
     toEmail := lit "to@example.com";
     fromEmail := lit "from@example.com" |}.

(** A world in which the page request has the given outcome and
    [ses.send] resolves or rejects as [delivers] says. *)
Definition worldOf (page : Thrown + Response) (delivers : bool) : World :=
  {| fetch := fun _ => page;
     ses_send := fun _ =>
       if delivers then inr (lit "message-id")
       else inl (ErrorObject (lit "MessageRejected") (lit "rejected"));
     now := 1700000000000 |}.

(** A [200 OK] response with the given body. *)
Definition okResponse (body : jsstring) : Response :=
  {| res_ok := true; status := 200; statusText := lit "OK";
     body_text := inr body |}.

(** A response with a non-success status, as the test suite mocks it. *)
Definition failResponse (status : N) (statusText : jsstring) : Response :=
  {| res_ok := false; status := status; statusText := statusText;
     body_text := inr [] |}.

(** * Properties *)

(** ** Strings *)

Lemma trimStart_nil_iff (s : jsstring) :
  trimStart s = [] ↔ Forall (λ c, isWhiteSpace c = true) s.
Proof.
  induction s as [|c s IH]; simpl.
  - split; [constructor | done].
  - destruct (isWhiteSpace c) eqn:Hc.
    + rewrite IH. split; [by constructor | by inversion 1].
    + split; [done | inversion 1; congruence].
Qed.

Lemma trimStart_idemp (s : jsstring) : trimStart (trimStart s) = trimStart s.
Proof.
  induction s as [|c s IH]; simpl; [done|].
  destruct (isWhiteSpace c) eqn:Hc; [done|]. simpl. by rewrite Hc.
Qed.

(** A string trims to the empty string exactly when it consists of white
    space only (the empty string included). *)
Lemma trim_nil_iff (s : jsstring) :
  trim s = [] ↔ Forall (λ c, isWhiteSpace c = true) s.
Proof.
  unfold trim, trimEnd. split.
  - intros Hnil. apply (f_equal reverse) in Hnil.
    rewrite reverse_involutive, reverse_nil in Hnil.
    apply trimStart_nil_iff, Forall_reverse in Hnil.
    rewrite reverse_involutive in Hnil.
    apply trimStart_nil_iff in Hnil. rewrite trimStart_idemp in Hnil.
    by apply trimStart_nil_iff.
  - intros Hall. apply trimStart_nil_iff in Hall. by rewrite Hall.
Qed.

Lemma trim_length_0_iff (s : jsstring) :
  (length (trim s) =? 0)%nat = true ↔ Forall (λ c, isWhiteSpace c = true) s.
Proof.
  rewrite Nat.eqb_eq, length_zero_iff_nil. apply trim_nil_iff.
Qed.

Lemma startsWith_spec (p s : jsstring) :
  startsWith p s = true ↔ ∃ suf, s = p ++ suf.
Proof.
  revert s. induction p as [|a p IH]; intros s; simpl.
  - split; [by exists s | done].
  - destruct s as [|b s].
    + split; [done | by intros [? ?]].
    + rewrite andb_true_iff, N.eqb_eq, IH. split.
      * intros [-> [suf ->]]. by exists suf.
      * intros [suf Heq]. injection Heq as -> ->. eauto.
Qed.

(** [includes] is the substring test. *)
Lemma includes_spec (c s : jsstring) :
  includes c s = true ↔ ∃ pre suf, s = pre ++ c ++ suf.
Proof.
  induction s as [|b s IH]; simpl.
  - rewrite orb_false_r, startsWith_spec. split.
    + intros [suf ->]. by exists [], suf.
    + intros (pre & suf & Heq). destruct pre; [by exists suf|done].
  - rewrite orb_true_iff, startsWith_spec, IH. split.
    + intros [[suf ->] | (pre & suf & ->)].
      * by exists [], suf.
      * by exists (b :: pre), suf.
    + intros (pre & suf & Heq). destruct pre as [|b' pre]; simpl in Heq.
      * left. by exists suf.
      * injection Heq as -> ->. right. by exists pre, suf.
Qed.

(** ** Regular expressions *)

Module RegexFacts.
Import Regex.

Lemma Matches_nil_nullable r : Matches r [] → nullable r = true.
Proof.
  intros Hm. remember [] as s eqn:Hs.
  induction Hm as [|p c Hp|r1 r2 s1 s2 _ IH1 _ IH2| | | |]; simpl; try done.
  - apply app_eq_nil in Hs as [-> ->]. by rewrite IH1, IH2.
  - by rewrite IHHm.
  - rewrite IHHm by done. apply orb_true_r.
Qed.

Lemma nullable_Matches_nil r : nullable r = true → Matches r [].
Proof.
  induction r as [| |p|r1 IH1 r2 IH2|r1 IH1 r2 IH2|r IH]; simpl; try done.
  - intros _. constructor.
  - intros [H1 H2]%andb_true_iff.
    change (@nil N) with (@nil N ++ []). constructor; auto.
  - intros [H1|H2]%orb_true_iff; [apply MAltL | apply MAltR]; auto.
  - intros _. constructor.
Qed.

Lemma deriv_sound c r s : Matches (deriv c r) s → Matches r (c :: s).
Proof.
  revert s. induction r as [| |p|r1 IH1 r2 IH2|r1 IH1 r2 IH2|r IH];
    intros s; simpl.
  - inversion 1.
  - inversion 1.
  - destruct (p c) eqn:Hp; inversion 1; subst. by constructor.
  - destruct (nullable r1) eqn:Hn.
    + inversion 1 as [| |? ? s1 s2 H1 H2| ? ? ? HL | ? ? ? HR | |]; subst.
      * inversion HL as [| |? ? s1 s2 H1 H2| | | |]; subst.
        change (c :: s1 ++ s2) with ((c :: s1) ++ s2). constructor; auto.
      * change (c :: s) with ([] ++ c :: s).
        constructor; [by apply nullable_Matches_nil | auto].
    + inversion 1 as [| |? ? s1 s2 H1 H2| | | |]; subst.
      change (c :: s1 ++ s2) with ((c :: s1) ++ s2). constructor; auto.
  - inversion 1; subst; [apply MAltL | apply MAltR]; auto.
  - inversion 1 as [| |? ? s1 s2 H1 H2| | | |]; subst.
    change (c :: s1 ++ s2) with ((c :: s1) ++ s2). constructor; auto.
Qed.

Lemma deriv_complete c r s : Matches r (c :: s) → Matches (deriv c r) s.
Proof.
  intros Hm. remember (c :: s) as t eqn:Ht. revert s Ht.
  induction Hm as [|p c' Hp|r1 r2 s1 s2 H1 IH1 H2 IH2|r1 r2 t H IH
                  |r1 r2 t H IH| |r s1 s2 H1 IH1 H2 IH2];
    intros s Ht; simpl.
  - done.
  - injection Ht as -> <-. rewrite Hp. constructor.
  - destruct s1 as [|c1 s1]; simpl in Ht.
    + subst s2. rewrite (Matches_nil_nullable _ H1). apply MAltR. auto.
    + injection Ht as -> <-.
      destruct (nullable r1); [apply MAltL|]; constructor; auto.
  - apply MAltL; auto.
  - apply MAltR; auto.
  - done.
  - destruct s1 as [|c1 s1]; simpl in Ht.
    + auto.
    + injection Ht as -> <-. constructor; auto.
Qed.

Lemma deriv_Matches c r s : Matches (deriv c r) s ↔ Matches r (c :: s).
Proof. split; [apply deriv_sound | apply deriv_complete]. Qed.

(** The derivative matcher decides the language of the pattern. *)
Lemma matchesb_Matches r s : matchesb r s = true ↔ Matches r s.
Proof.
  revert r. induction s as [|c s IH]; intros r; simpl.
  - split; [apply nullable_Matches_nil | apply Matches_nil_nullable].
  - by rewrite IH, deriv_Matches.
Qed.

Lemma matchesPrefix_spec r s :
  matchesPrefix r s = true ↔ ∃ m suf, s = m ++ suf ∧ Matches r m.
Proof.
  revert r. induction s as [|c s IH]; intros r; simpl.
  - rewrite orb_false_r. split.
    + intros Hn. exists [], []. eauto using nullable_Matches_nil.
    + intros (m & suf & Heq & Hm). symmetry in Heq.
      apply app_eq_nil in Heq as [-> _]. by apply Matches_nil_nullable.
  - rewrite orb_true_iff, IH. split.
    + intros [Hn | (m & suf & -> & Hm)].
      * exists [], (c :: s). eauto using nullable_Matches_nil.
      * exists (c :: m), suf. split; [done | by apply deriv_Matches].
    + intros (m & suf & Heq & Hm). destruct m as [|c' m]; simpl in Heq.
      * left. by apply Matches_nil_nullable.
      * injection Heq as -> ->. right. exists m, suf.
        split; [done | by apply deriv_Matches].
Qed.

(** [test] finds a match of the pattern somewhere in the input. *)
Lemma test_spec r s :
  test r s = true ↔ ∃ pre m suf, s = pre ++ m ++ suf ∧ Matches r m.
Proof.
  induction s as [|c s IH]; cbn [test].
  - rewrite orb_false_r, matchesPrefix_spec. split.
    + intros (m & suf & Heq & Hm). by exists [], m, suf.
    + intros (pre & m & suf & Heq & Hm). destruct pre; [|done].
      by exists m, suf.
  - rewrite orb_true_iff, matchesPrefix_spec, IH. split.
    + intros [(m & suf & Heq & Hm) | (pre & m & suf & -> & Hm)].
      * by exists [], m, suf.
      * by exists (c :: pre), m, suf.
    + intros (pre & m & suf & Heq & Hm).
      destruct pre as [|c' pre]; simpl in Heq.
      * left. by exists m, suf.
      * injection Heq as -> ->. right. by exists pre, m, suf.
Qed.

End RegexFacts.

Module PatternFacts.
Import Regex RegexFacts.

Lemma Matches_Cat_inv r1 r2 s :
  Matches (Cat r1 r2) s ↔ ∃ s1 s2, s = s1 ++ s2 ∧ Matches r1 s1 ∧ Matches r2 s2.
Proof.
  split.
  - inversion 1; subst; eauto.
  - intros (s1 & s2 & -> & H1 & H2). by constructor.
Qed.

Lemma Matches_Class_inv p s :
  Matches (Class p) s ↔ ∃ c, s = [c] ∧ p c = true.
Proof.
  split.
  - inversion 1; subst; eauto.
  - intros (c & -> & Hp). by constructor.
Qed.

Lemma Matches_Chr_inv c s : Matches (Chr c) s ↔ s = [c].
Proof.
  unfold Chr. rewrite Matches_Class_inv. split.
  - by intros (c' & -> & ->%N.eqb_eq).
  - intros ->. exists c. by rewrite N.eqb_refl.
Qed.

Lemma Matches_Star_Class p s :
  Matches (Star (Class p)) s ↔ Forall (λ c, p c = true) s.
Proof.
  split.
  - intros Hm. remember (Star (Class p)) as r eqn:Hr.
    induction Hm as [| | | | | |r s1 s2 H1 _ H2 IH2]; try done.
    injection Hr as ->. apply Forall_app. split; [|auto].
    apply Matches_Class_inv in H1 as (c & -> & Hp). by repeat constructor.
  - induction 1 as [|c s Hp _ IH]; [constructor|].
    change (c :: s) with ([c] ++ s). constructor; [by constructor | done].
Qed.

Lemma Matches_Plus_Class p s :
  Matches (Plus (Class p)) s ↔ s ≠ [] ∧ Forall (λ c, p c = true) s.
Proof.
  unfold Plus. rewrite Matches_Cat_inv. split.
  - intros (s1 & s2 & -> & (c & -> & Hp)%Matches_Class_inv
                        & Hs%Matches_Star_Class).
    split; [done | by constructor].
  - intros [Hne Hall]. destruct Hall as [|c s Hp Hall]; [done|].
    exists [c], s. split; [done|].
    split; [by constructor | by apply Matches_Star_Class].
Qed.

(** Under the [i] flag a lower-case ASCII letter of the pattern matches
    exactly the code units that ASCII lower-casing sends to it. *)
Lemma ChrI_lower c p :
  97 ≤ p ≤ 122 →
  (c <? 128) && (asciiUpper c =? asciiUpper p) = true ↔ asciiLower c = p.
Proof.
  intros Hp. unfold asciiUpper, asciiLower.
  rewrite andb_true_iff, N.ltb_lt, N.eqb_eq.
  repeat match goal with
         | |- context [?a <=? ?b] => destruct (N.leb_spec a b)
         end; simpl; lia.
Qed.

Lemma Matches_WordI w s :
  Forall (λ p, 97 ≤ p ≤ 122) w →
  Matches (WordI w) s ↔ map asciiLower s = w.
Proof.
  intros Hw. revert s. induction Hw as [|p w Hp _ IH]; intros s; simpl.
  - split; [by inversion 1 | intros ->%map_eq_nil; constructor].
  - rewrite Matches_Cat_inv. unfold ChrI at 1. split.
    + intros (s1 & s2 & -> & (c & -> & Hc)%Matches_Class_inv & H2).
      simpl. f_equal; [by apply ChrI_lower | by apply IH].
    + destruct s as [|c s]; [done|]. simpl. intros [= Hc Hs].
      exists [c], s. split; [done|]. split; [|by apply IH].
      apply Matches_Class_inv. exists c. split; [done|].
      by apply ChrI_lower.
Qed.

Lemma lowercase_add : Forall (λ p, 97 ≤ p ≤ 122) (lit "add").
Proof. repeat constructor; simpl; lia. Qed.

Lemma lowercase_to : Forall (λ p, 97 ≤ p ≤ 122) (lit "to").
Proof. repeat constructor; simpl; lia. Qed.

Lemma lowercase_cart : Forall (λ p, 97 ≤ p ≤ 122) (lit "cart").
Proof. repeat constructor; simpl; lia. Qed.

Lemma Matches_Cat5_inv r1 r2 r3 r4 r5 m :
  Matches (Cat r1 (Cat r2 (Cat r3 (Cat r4 r5)))) m ↔
  ∃ s1 s2 s3 s4 s5,
    m = s1 ++ s2 ++ s3 ++ s4 ++ s5
    ∧ Matches r1 s1 ∧ Matches r2 s2 ∧ Matches r3 s3
    ∧ Matches r4 s4 ∧ Matches r5 s5.
Proof.
  repeat setoid_rewrite Matches_Cat_inv. split.
  - intros (s1 & ? & -> & H1 & s2 & ? & -> & H2 & s3 & ? & -> & H3
              & s4 & s5 & -> & H4 & H5).
    by exists s1, s2, s3, s4, s5.
  - intros (s1 & s2 & s3 & s4 & s5 & -> & H1 & H2 & H3 & H4 & H5).
    exists s1, (s2 ++ s3 ++ s4 ++ s5). repeat split; try done.
    exists s2, (s3 ++ s4 ++ s5). repeat split; try done.
    exists s3, (s4 ++ s5). repeat split; try done.
    by exists s4, s5.
Qed.

(** The language of [/add\s*to\s*cart/i]. *)
Lemma addToCartRegex_Matches m :
  Matches addToCartRegex m ↔
  ∃ a w1 t w2 c,
    m = a ++ w1 ++ t ++ w2 ++ c
    ∧ map asciiLower a = lit "add"
    ∧ Forall (λ x, isWhiteSpace x = true) w1
    ∧ map asciiLower t = lit "to"
    ∧ Forall (λ x, isWhiteSpace x = true) w2
    ∧ map asciiLower c = lit "cart".
Proof.
  unfold addToCartRegex, WhiteSpace. rewrite Matches_Cat5_inv.
  do 5 (apply exist_proper; intros ?).
  by rewrite (Matches_WordI _ _ lowercase_add),
    (Matches_WordI _ _ lowercase_to), (Matches_WordI _ _ lowercase_cart),
    !Matches_Star_Class.
Qed.

(** [/add\s*to\s*cart/i.test(s)]: the phrase occurs somewhere in [s],
    in any ASCII letter case and with any white space, or none, between
    the words. *)
Lemma addToCartRegex_test s :
  test addToCartRegex s = true ↔
  ∃ pre a w1 t w2 c suf,
    s = pre ++ a ++ w1 ++ t ++ w2 ++ c ++ suf
    ∧ map asciiLower a = lit "add"
    ∧ Forall (λ x, isWhiteSpace x = true) w1
    ∧ map asciiLower t = lit "to"
    ∧ Forall (λ x, isWhiteSpace x = true) w2
    ∧ map asciiLower c = lit "cart".
Proof.
  rewrite test_spec. setoid_rewrite addToCartRegex_Matches. split.
  - intros (pre & m & suf & -> & a & w1 & t & w2 & c & -> & H).
    exists pre, a, w1, t, w2, c, suf. split; [|done].
    by rewrite <- !(assoc_L (++)).
  - intros (pre & a & w1 & t & w2 & c & suf & -> & H).
    exists pre, (a ++ w1 ++ t ++ w2 ++ c), suf. split.
    + by rewrite <- !(assoc_L (++)).
    + by exists a, w1, t, w2, c.
Qed.

Lemma emailAtom_class c :
  negb (isWhiteSpace c || (c =? 64)) = true ↔ emailAtom c.
Proof.
  unfold emailAtom. rewrite negb_true_iff, orb_false_iff, N.eqb_neq. done.
Qed.

(** The strings [/^[^\s@]+@[^\s@]+\.[^\s@]+$/] accepts: a local part, one
    "@", and a remainder with a "." strictly inside it; all three parts
    are non-empty and free of white space and of "@". *)
Lemma emailRegex_test_spec s : emailRegex_test s = true ↔ emailShaped s.
Proof.
  unfold emailRegex_test, emailRegex, emailShaped. cbv zeta.
  rewrite matchesb_Matches, Matches_Cat5_inv. split.
  - intros (l & a & d & b & t & -> & [Hl Al]%Matches_Plus_Class
              & ->%Matches_Chr_inv & [Hd Ad]%Matches_Plus_Class
              & ->%Matches_Chr_inv & [Ht At]%Matches_Plus_Class).
    exists l, d, t. by rewrite <- !(Forall_iff _ _ _ emailAtom_class).
  - intros (l & d & t & -> & Hl & Hd & Ht & Al & Ad & At).
    exists l, [64], d, [46], t.
    rewrite !Matches_Plus_Class, !Matches_Chr_inv.
    by rewrite !(Forall_iff _ _ _ emailAtom_class).
Qed.

End PatternFacts.

(** ** Runs of the handler

    One equation per path through [handler]: the response and the effects
    appended to the trace. *)

Ltac run_handler :=
  cbv [handler try_catch bind perform sendEmail ret throw].

Section HandlerRuns.
Context `{Host}.
Implicit Types (config : ValidatedConfig) (w : World)
  (event : option (list N)) (tr : list Effect).

Lemma handler_fetch_rejects config w event tr err :
  fetch w (targetUrl config) = inl err →
  handler config w event tr =
    (inr (HandlerError (errorMessageOf err)),
     tr ++ [Fetched (targetUrl config);
            SendAttempted (checkFailedEmail config w event err)]).
Proof.
  intros Hf. run_handler. rewrite Hf. cbv beta iota.
  fold (checkFailedEmail config w event err).
  by destruct (ses_send w _); rewrite <- (assoc_L (++)).
Qed.

Lemma handler_text_rejects config w event tr res err :
  fetch w (targetUrl config) = inr res →
  res_ok res = true →
  body_text res = inl err →
  handler config w event tr =
    (inr (HandlerError (errorMessageOf err)),
     tr ++ [Fetched (targetUrl config);
            SendAttempted (checkFailedEmail config w event err)]).
Proof.
  intros Hf Hok Hb. run_handler. rewrite Hf. cbv beta iota.
  rewrite Hok, Hb. cbv beta iota. cbn [negb].
  fold (checkFailedEmail config w event err).
  by destruct (ses_send w _); rewrite <- (assoc_L (++)).
Qed.

Lemma handler_not_ok config w event tr res :
  fetch w (targetUrl config) = inr res →
  res_ok res = false →
  handler config w event tr =
    (inr (HandlerFetchFail (httpFailureMessage config res)),
     tr ++ Fetched (targetUrl config)
        :: (if 500 <=? status res
            then [SendAttempted (serverErrorEmail config res)] else [])).
Proof.
  intros Hf Hok. run_handler. rewrite Hf. cbv beta iota.
  rewrite Hok. cbn [negb]. cbv beta iota.
  fold (serverErrorEmail config res). fold (httpFailureMessage config res).
  destruct (500 <=? status res); [|done].
  by destruct (ses_send w _); rewrite <- (assoc_L (++)).
Qed.

Lemma handler_blank_body config w event tr res html :
  fetch w (targetUrl config) = inr res →
  res_ok res = true →
  body_text res = inr html →
  Forall (λ c, isWhiteSpace c = true) html →
  handler config w event tr =
    (inr (HandlerFetchFail (lit "Received empty response from target URL")),
     tr ++ [Fetched (targetUrl config)]).
Proof.
  intros Hf Hok Hb Hws. apply trim_length_0_iff in Hws.
  run_handler. rewrite Hf. cbv beta iota. rewrite Hok, Hb.
  cbn [negb]. cbv beta iota. by rewrite Hws, orb_true_r.
Qed.

Lemma handler_evaluated config w event tr res html :
  fetch w (targetUrl config) = inr res →
  res_ok res = true →
  body_text res = inr html →
  trim html ≠ [] →
  let result := evaluate html in
  let available :=
    exists_ result && saysAddToCart result && negb (locked result) in
  let cmd := stockAvailableEmail config w event result in
  handler config w event tr =
    (inr (HandlerSuccess (available && delivered w cmd) result),
     tr ++ Fetched (targetUrl config)
        :: (if available then [SendAttempted cmd] else [])).
Proof.
  intros Hf Hok Hb Hne result available cmd.
  assert (bool_decide (html = []) || (length (trim html) =? 0)%nat = false)
    as Hguard.
  { apply orb_false_iff. split.
    - apply bool_decide_eq_false. by intros ->.
    - apply Nat.eqb_neq. by rewrite length_zero_iff_nil. }
  run_handler. rewrite Hf. cbv beta iota. rewrite Hok, Hb.
  cbn [negb]. cbv beta iota. rewrite Hguard.
  fold result. fold (stockAvailableEmail config w event result).
  fold cmd. fold available. unfold delivered.
  destruct available; [|done].
  by destruct (ses_send w cmd); rewrite <- (assoc_L (++)).
Qed.

End HandlerRuns.

(** ** The evaluator *)

Section Evaluator.
Context `{Host}.

Lemma toLowerCase_nil : toLowerCase [] = [].
Proof. by rewrite toLowerCase_ascii. Qed.

(** On an ASCII attribute value, lower-casing to ["true"] is equality
    with ["true"] up to ASCII letter case. *)
Lemma toLowerCase_ascii_true (v : jsstring) :
  Forall (λ c, c < 128) v →
  toLowerCase v = lit "true" ↔ map asciiLower v = lit "true".
Proof. intros Hv. by rewrite toLowerCase_ascii. Qed.

Lemma orElse_nil_Some (o : option (list N)) (P : list N → Prop) :
  ¬ P (toLowerCase []) →
  P (toLowerCase (orElse o [])) ↔ ∃ v, o = Some v ∧ P (toLowerCase v).
Proof.
  intros Hnil. destruct o as [[|c v]|]; simpl; split; try done.
  - by intros (v & [= <-] & ?).
  - intros ?. by exists (c :: v).
  - by intros (v' & [= <-] & ?).
  - by intros (v & ? & ?).
Qed.

Lemma includes_nil_ne (c : jsstring) : c ≠ [] → includes c [] = false.
Proof. by destruct c. Qed.

(** C2. The locked flag of [isElementLocked] is true exactly when the
    selection is empty, or the element is [:disabled] or has a
    [disabled] attribute, or its [aria-disabled] attribute lower-cases
    to ["true"], or its lower-cased [class] attribute has one of
    ["disabled"], ["soldout"], ["locked"], ["unavailable"] as a
    substring, or its [data-locked] attribute lower-cases to ["true"];
    in every other case it is false. *)
Theorem C2_isElementLocked_iff (el : Cheerio) :
  isElementLocked el = true ↔
    cheerio_length el = 0%nat
    ∨ (cheerio_is el ":disabled" = true ∨ is_Some (attr el "disabled"))
    ∨ (∃ v, attr el "aria-disabled" = Some v ∧ toLowerCase v = lit "true")
    ∨ (∃ v c pre suf,
         attr el "class" = Some v
         ∧ c ∈ [lit "disabled"; lit "soldout"; lit "locked";
                lit "unavailable"]
         ∧ toLowerCase v = pre ++ c ++ suf)
    ∨ (∃ v, attr el "data-locked" = Some v ∧ toLowerCase v = lit "true").
Proof.
  unfold isElementLocked.
  destruct (Nat.eqb_spec (cheerio_length el) 0) as [Hlen|Hlen].
  { split; [by left | done]. }
  cbv zeta. rewrite !orb_true_iff, !bool_decide_eq_true.
  rewrite (orElse_nil_Some _ (λ s, s = lit "true"))
    by (by rewrite toLowerCase_nil).
  rewrite (orElse_nil_Some (attr el "data-locked") (λ s, s = lit "true"))
    by (by rewrite toLowerCase_nil).
  rewrite existsb_exists.
  assert ((∃ c, In c lockedClasses
                ∧ includes c (toLowerCase (orElse (attr el "class") []))
                  = true)
          ↔ ∃ v c pre suf,
              attr el "class" = Some v
              ∧ c ∈ lockedClasses
              ∧ toLowerCase v = pre ++ c ++ suf) as ->.
  { split.
    - intros (c & Hc & Hinc).
      apply (orElse_nil_Some _ (λ s, includes c s = true)) in Hinc
        as (v & Hv & Hinc).
      + apply includes_spec in Hinc as (pre & suf & Heq).
        exists v, c, pre, suf. by rewrite list_elem_of_In.
      + rewrite toLowerCase_nil, includes_nil_ne; [done|].
        intros ->. by repeat (destruct Hc as [Hc|Hc]; [done|]).
    - intros (v & c & pre & suf & Hv & Hc & Heq).
      exists c. split; [by apply list_elem_of_In|].
      apply (orElse_nil_Some _ (λ s, includes c s = true)).
      + rewrite toLowerCase_nil, includes_nil_ne; [done|].
        intros ->. apply list_elem_of_In in Hc.
        by repeat (destruct Hc as [Hc|Hc]; [done|]).
      + exists v. split; [done|]. apply includes_spec. eauto. }
  unfold lockedClasses. tauto.
Qed.

(** C4. When [$("#add")] finds no element the result is [exists=false],
    [text=""], [saysAddToCart=false], [locked=true]. *)
Theorem C4_absent_element (html : jsstring) :
  cheerio_length (cheerio_select html "#add") = 0%nat →
  evaluate html =
    {| exists_ := false; text := []; saysAddToCart := false;
       locked := true |}.
Proof.
  intros Hlen. unfold evaluate, isElementLocked. by rewrite Hlen.
Qed.

(** C3. The evaluator's text is the trimmed text of the element ([""]
    when there is none), and [saysAddToCart] holds exactly when that text
    contains "add", "to", "cart" in this order, in any ASCII letter
    case, with any amount of white space, or none, between the words.
    ["Add to Cart"], ["ADD  TO CART"] and ["addtocart"] give [true];
    unrelated texts give [false]. *)
Theorem C3_saysAddToCart (html : jsstring) :
  let r := evaluate html in
  text r = (if exists_ r
            then trim (cheerio_text (cheerio_select html "#add")) else [])
  ∧ (saysAddToCart r = true ↔
       ∃ pre a w1 t w2 c suf,
         text r = pre ++ a ++ w1 ++ t ++ w2 ++ c ++ suf
         ∧ map asciiLower a = lit "add"
         ∧ Forall (λ x, isWhiteSpace x = true) w1
         ∧ map asciiLower t = lit "to"
         ∧ Forall (λ x, isWhiteSpace x = true) w2
         ∧ map asciiLower c = lit "cart")
  ∧ (∀ t, t ∈ [lit "Add to Cart"; lit "ADD  TO CART"; lit "addtocart"] →
          text r = t → saysAddToCart r = true)
  ∧ (∀ t, t ∈ [lit "Sold Out"; lit "Notify me"; lit "Add to wishlist"; []] →
          text r = t → saysAddToCart r = false).
Proof.
  cbv zeta. split; [done|].
  split; [apply PatternFacts.addToCartRegex_test|].
  unfold evaluate; cbn [saysAddToCart text].
  split; intros t Ht ->; repeat (apply elem_of_cons in Ht as [->|Ht]);
    try done; by apply elem_of_nil in Ht.
Qed.

End Evaluator.

(** ** The handler *)

Section Handler.
Context `{Host}.
Implicit Types (config : ValidatedConfig) (w : World)
  (event : option (list N)) (tr : list Effect).

Lemma includes_mid (pre c suf : jsstring) : includes c (pre ++ c ++ suf) = true.
Proof. apply includes_spec. eauto. Qed.

(** C1. When the page request succeeds and the body is not empty or
    white space only, the handler returns the Success variant; the
    stock e-mail is attempted exactly when [exists && saysAddToCart &&
    !locked], otherwise nothing is sent and [notified] is false; and
    when the attempt fails the response is still Success with
    [notified] false. *)
Theorem C1_notification_rule config w event tr res html :
  fetch w (targetUrl config) = inr res →
  res_ok res = true →
  body_text res = inr html →
  ¬ Forall (λ c, isWhiteSpace c = true) html →
  let result := evaluate html in
  let available :=
    exists_ result && saysAddToCart result && negb (locked result) in
  let cmd := stockAvailableEmail config w event result in
  ∃ notified tr',
    handler config w event tr =
      (inr (HandlerSuccess notified result), tr ++ tr')
    ∧ ok (HandlerSuccess notified result) = true
    ∧ sendAttempts tr' = (if available then [cmd] else [])
    ∧ Subject cmd = stockAvailableSubject
    ∧ (available = false → notified = false)
    ∧ (delivered w cmd = false → notified = false)
    ∧ (notified = true ↔ available = true ∧ delivered w cmd = true).
Proof.
  intros Hf Hok Hb Hne result available cmd.
  rewrite <- trim_nil_iff in Hne.
  exists (available && delivered w cmd),
    (Fetched (targetUrl config)
       :: (if available then [SendAttempted cmd] else [])).
  split; [by apply (handler_evaluated _ _ _ _ res)|].
  split; [done|]. split; [by destruct available|]. split; [done|].
  rewrite andb_true_iff.
  repeat split; try tauto; intros ->; [done | apply andb_false_r].
Qed.

(** C5. When the response has a non-success status the handler returns
    FetchFailure with the message "HTTP <status> <statusText> when
    fetching <url>"; when the status is at least 500 exactly one e-mail
    is attempted, with subject "Stock check: Server error detected",
    and none otherwise; the response is the same whether or not that
    e-mail is delivered. *)
Theorem C5_non_success_status config w event tr res :
  fetch w (targetUrl config) = inr res →
  res_ok res = false →
  ∃ message tr',
    handler config w event tr = (inr (HandlerFetchFail message), tr ++ tr')
    ∧ message = lit "HTTP " ++ decimal (status res) ++ lit " "
                ++ statusText res ++ lit " when fetching "
                ++ targetUrl config
    ∧ includes (decimal (status res)) message = true
    ∧ includes (statusText res) message = true
    ∧ includes (targetUrl config) message = true
    ∧ (500 ≤ status res →
         ∃ cmd, sendAttempts tr' = [cmd]
                ∧ Subject cmd = lit "Stock check: Server error detected")
    ∧ (status res < 500 → sendAttempts tr' = [])
    ∧ (∀ w', fetch w' (targetUrl config) = inr res →
             (handler config w' event tr).1
             = inr (HandlerFetchFail message)).
Proof.
  intros Hf Hok.
  exists (httpFailureMessage config res),
    (Fetched (targetUrl config)
       :: (if 500 <=? status res
           then [SendAttempted (serverErrorEmail config res)] else [])).
  split; [by apply handler_not_ok|]. split; [done|].
  unfold httpFailureMessage.
  split; [apply includes_mid|].
  split; [rewrite !(assoc_L (++) _ _ (statusText res ++ _));
          apply includes_mid|].
  split.
  { rewrite !(assoc_L (++)). apply includes_spec.
    exists (((lit "HTTP " ++ decimal (status res)) ++ lit " ")
              ++ statusText res ++ lit " when fetching "), [].
    by rewrite app_nil_r, !(assoc_L (++)). }
  split; [|split].
  - intros Hge. apply N.leb_le in Hge. rewrite Hge.
    by exists (serverErrorEmail config res).
  - intros Hlt. apply N.leb_gt in Hlt. by rewrite Hlt.
  - intros w' Hf'. by rewrite (handler_not_ok _ _ _ _ _ Hf' Hok).
Qed.

(** C6. When the response has a success status and a body that is empty
    or white space only, the handler returns FetchFailure with message
    "Received empty response from target URL" and attempts no e-mail. *)
Theorem C6_empty_body config w event tr res html :
  fetch w (targetUrl config) = inr res →
  res_ok res = true →
  body_text res = inr html →
  Forall (λ c, isWhiteSpace c = true) html →
  ∃ tr',
    handler config w event tr =
      (inr (HandlerFetchFail (lit "Received empty response from target URL")),
       tr ++ tr')
    ∧ sendAttempts tr' = [].
Proof.
  intros Hf Hok Hb Hws. exists [Fetched (targetUrl config)].
  split; [by apply (handler_blank_body _ _ _ _ res html) | done].
Qed.

End Handler.

Section HandlerBoundary.
Context `{Host}.
Implicit Types (config : ValidatedConfig) (w : World)
  (event : option (list N)) (tr : list Effect).

(** C8. The handler always returns one of the three variants and never
    throws. When [fetch] or [res.text()] rejects, the response is the
    RuntimeFailure variant whose [error] is the thrown error's message
    (or the thrown value as a string), and exactly one error e-mail is
    attempted, whatever the outcome of that attempt. *)
Theorem C8_never_throws config w event tr :
  (∃ r tr',
     handler config w event tr = (inr r, tr ++ tr')
     ∧ ((∃ notified result, r = HandlerSuccess notified result)
        ∨ (∃ message, r = HandlerFetchFail message)
        ∨ (∃ error, r = HandlerError error)))
  ∧ (∀ err,
       fetch w (targetUrl config) = inl err
       ∨ (∃ res, fetch w (targetUrl config) = inr res
                 ∧ res_ok res = true ∧ body_text res = inl err) →
       ∃ error tr',
         handler config w event tr = (inr (HandlerError error), tr ++ tr')
         ∧ error = match err with
                   | ErrorObject _ message => message
                   | OtherValue s => s
                   end
         ∧ ok (HandlerError error) = false
         ∧ sendAttempts tr' = [checkFailedEmail config w event err]).
Proof.
  split.
  - destruct (fetch w (targetUrl config)) as [err|res] eqn:Hf.
    { eexists _, _. split; [by apply handler_fetch_rejects|]. eauto. }
    destruct (res_ok res) eqn:Hok; cycle 1.
    { eexists _, _. split; [by apply handler_not_ok|]. eauto. }
    destruct (body_text res) as [err|html] eqn:Hb.
    { eexists _, _. split; [by apply (handler_text_rejects _ _ _ _ res)|].
      eauto. }
    destruct (decide (Forall (λ c, isWhiteSpace c = true) html)) as [Hws|Hws].
    { eexists _, _.
      split; [by apply (handler_blank_body _ _ _ _ res html)|]. eauto. }
    rewrite <- trim_nil_iff in Hws.
    eexists _, _. split; [by apply (handler_evaluated _ _ _ _ res html)|].
    eauto.
  - intros err Herr.
    exists (errorMessageOf err),
      [Fetched (targetUrl config);
       SendAttempted (checkFailedEmail config w event err)].
    split; [|by destruct err].
    destruct Herr as [Hf|(res & Hf & Hok & Hb)].
    + by apply handler_fetch_rejects.
    + by apply (handler_text_rejects _ _ _ _ res).
Qed.

(** C9. The [CheckResult] is a function of the markup alone: two
    invocations that receive the same markup report the same [exists],
    [text], [saysAddToCart] and [locked], whatever the event, the clock,
    the e-mail outcomes and the effects so far. *)
Theorem C9_evaluator_deterministic config html
    w1 w2 event1 event2 tr1 tr2 res1 res2 :
  fetch w1 (targetUrl config) = inr res1 →
  res_ok res1 = true → body_text res1 = inr html →
  fetch w2 (targetUrl config) = inr res2 →
  res_ok res2 = true → body_text res2 = inr html →
  ¬ Forall (λ c, isWhiteSpace c = true) html →
  ∃ notified1 notified2 result,
    (handler config w1 event1 tr1).1 = inr (HandlerSuccess notified1 result)
    ∧ (handler config w2 event2 tr2).1 = inr (HandlerSuccess notified2 result)
    ∧ result = evaluate html.
Proof.
  intros Hf1 Hok1 Hb1 Hf2 Hok2 Hb2 Hne. rewrite <- trim_nil_iff in Hne.
  rewrite (handler_evaluated _ _ _ _ res1 html),
    (handler_evaluated _ _ _ _ res2 html) by done.
  by eexists _, _, _.
Qed.

End HandlerBoundary.

(** ** Environment validation *)

Ltac throws tac := split; [intros _; tac | intros _; by eexists].

Section Config.
Context `{Host}.
Implicit Types (env : gmap string (list N)).

Lemma truthy_false_iff (v : option (list N)) :
  truthy v = false ↔ v = None ∨ v = Some [].
Proof.
  destruct v as [[|? ?]|]; simpl;
    (split; [try done; auto | try done; by intros [?|?]]).
Qed.

Lemma emailRegex_test_false s : emailRegex_test s = false ↔ ¬ emailShaped s.
Proof.
  rewrite <- PatternFacts.emailRegex_test_spec. by destruct (emailRegex_test s).
Qed.

(** What a successful validation returns. *)
Lemma validateEnvironment_returns env config :
  validateEnvironment env = inr config →
  env !! "TARGET_URL"%string = Some (targetUrl config)
  ∧ env !! "TO_EMAIL"%string = Some (toEmail config)
  ∧ env !! "FROM_EMAIL"%string = Some (fromEmail config)
  ∧ region config =
      orElse (env !! "AWS_REGION"%string)
        (orElse (env !! "AWS_DEFAULT_REGION"%string) (lit "us-east-1")).
Proof.
  unfold validateEnvironment. cbv zeta.
  destruct (env !! "TARGET_URL"%string) as [[|c u]|]; simpl; try done.
  destruct (env !! "TO_EMAIL"%string) as [[|c1 a1]|]; simpl; try done.
  destruct (env !! "FROM_EMAIL"%string) as [[|c2 a2]|]; simpl; try done.
  destruct (URL_parses (c :: u)); simpl; try done.
  destruct (emailRegex_test (c1 :: a1)); simpl; try done.
  destruct (emailRegex_test (c2 :: a2)); simpl; try done.
  by intros [= <-].
Qed.

(** C7, amended. Validation throws exactly when the target URL is unset
    or empty or does not parse, an address is unset or empty, or an
    address is not of the shape [local@domain.tld] (non-empty parts free
    of white space and "@"; characters outside ASCII are accepted).
    Otherwise it returns the three variables as they are, with the
    region. When it throws, nothing is fetched or sent. *)
Theorem C7_validateEnvironment env :
  ((∃ error, validateEnvironment env = inl error) ↔
     unset env "TARGET_URL"
     ∨ (∃ u, env !! "TARGET_URL"%string = Some u ∧ URL_parses u = false)
     ∨ unset env "TO_EMAIL"
     ∨ unset env "FROM_EMAIL"
     ∨ (∃ a, env !! "TO_EMAIL"%string = Some a ∧ ¬ emailShaped a)
     ∨ (∃ a, env !! "FROM_EMAIL"%string = Some a ∧ ¬ emailShaped a))
  ∧ (∀ config, validateEnvironment env = inr config →
       env !! "TARGET_URL"%string = Some (targetUrl config)
       ∧ env !! "TO_EMAIL"%string = Some (toEmail config)
       ∧ env !! "FROM_EMAIL"%string = Some (fromEmail config)
       ∧ region config =
           orElse (env !! "AWS_REGION"%string)
             (orElse (env !! "AWS_DEFAULT_REGION"%string) (lit "us-east-1")))
  ∧ (∀ error w event,
       validateEnvironment env = inl error →
       invoke env w event = (inl error, [])).
Proof.
  split; [|split].
  - unfold validateEnvironment, unset. cbv zeta.
  destruct (env !! "TARGET_URL"%string) as [[|c u]|] eqn:Hu; simpl;
    [throws ltac:(left; by right) | | throws ltac:(left; by left)].
  destruct (env !! "TO_EMAIL"%string) as [[|c1 a1]|] eqn:Ha1; simpl;
    [throws ltac:(do 2 right; left; by right) |
    | throws ltac:(do 2 right; left; by left)].
  destruct (env !! "FROM_EMAIL"%string) as [[|c2 a2]|] eqn:Ha2; simpl;
    [throws ltac:(do 3 right; left; by right) |
    | throws ltac:(do 3 right; left; by left)].
  destruct (URL_parses (c :: u)) eqn:Hp; simpl;
    [|throws ltac:(right; left; by exists (c :: u))].
  destruct (emailRegex_test (c1 :: a1)) eqn:He1; simpl; cycle 1.
  { apply emailRegex_test_false in He1.
    throws ltac:(do 4 right; left; by exists (c1 :: a1)). }
  apply PatternFacts.emailRegex_test_spec in He1.
  destruct (emailRegex_test (c2 :: a2)) eqn:He2; simpl; cycle 1.
  { apply emailRegex_test_false in He2.
    throws ltac:(do 5 right; by exists (c2 :: a2)). }
  apply PatternFacts.emailRegex_test_spec in He2.
  split; [by intros [? ?]|].
  intros [[?|?]|[(?&?&?)|[[?|?]|[[?|?]|[(?&?&?)|(?&?&?)]]]]];
    simplify_eq; congruence.
- apply validateEnvironment_returns.
  - intros error w event Herr. unfold invoke. by rewrite Herr.
Qed.

End Config.

Section EmptyValues.
Context `{Host}.
Implicit Types (env : gmap string (list N)).

Lemma orElse_unset env name (d : list N) :
  unset env name → orElse (env !! name) d = d.
Proof. by intros [-> | ->]. Qed.

(** Removing a variable whose value is the empty string changes nothing. *)
Lemma validateEnvironment_delete_empty env name :
  env !! name = Some [] →
  validateEnvironment (delete name env) = validateEnvironment env.
Proof.
  intros Hk. unfold validateEnvironment. cbv zeta.
  rewrite !lookup_delete.
  repeat case_decide; subst; rewrite ?Hk; done.
Qed.

(** C10. An empty value counts as an absent one. With [AWS_REGION] and
    [AWS_DEFAULT_REGION] each unset or empty the region is "us-east-1";
    an empty [TARGET_URL], [TO_EMAIL] or [FROM_EMAIL] makes validation
    throw one of the two "required" errors, not a URL-syntax or
    e-mail-format error; and deleting an empty variable leaves the
    outcome of validation unchanged. *)
Theorem C10_empty_as_absent env :
  (unset env "AWS_REGION" → unset env "AWS_DEFAULT_REGION" →
   ∀ config, validateEnvironment env = inr config →
             region config = lit "us-east-1")
  ∧ (env !! "TARGET_URL"%string = Some [] →
     validateEnvironment env =
       inl (newError "TARGET_URL environment variable is required"))
  ∧ (env !! "TO_EMAIL"%string = Some []
     ∨ env !! "FROM_EMAIL"%string = Some [] →
     validateEnvironment env =
       inl (newError "TARGET_URL environment variable is required")
     ∨ validateEnvironment env =
         inl (newError
                "TO_EMAIL and FROM_EMAIL environment variables are required"))
  ∧ (∀ name, env !! name = Some [] →
             validateEnvironment (delete name env) = validateEnvironment env).
Proof.
  split; [|split; [|split]].
  - intros Hr Hd config Hv.
    apply validateEnvironment_returns in Hv as (_ & _ & _ & ->).
    by rewrite (orElse_unset _ _ _ Hr), (orElse_unset _ _ _ Hd).
  - intros Hu. unfold validateEnvironment. by rewrite Hu.
  - intros Hempty. unfold validateEnvironment. cbv zeta.
    destruct (truthy (env !! "TARGET_URL"%string)); simpl; [|by left].
    right. by destruct Hempty as [-> | ->]; simpl; rewrite ?orb_true_r.
  - apply validateEnvironment_delete_empty.
Qed.

End EmptyValues.

(** ** The scenarios of the test suite *)

Example scenario_A :
  (handler (H:=stubHost addButton) exampleConfig
     (worldOf (inr (okResponse addButtonPage)) true) None []).1 =
  inr (HandlerSuccess true
         {| exists_ := true; text := lit "Add to Cart";
            saysAddToCart := true; locked := false |}).
Proof. vm_compute. reflexivity. Qed.

Example scenario_B :
  (handler (H:=stubHost disabledButton) exampleConfig
     (worldOf (inr (okResponse disabledButtonPage)) true) None []).1 =
  inr (HandlerSuccess false
         {| exists_ := true; text := lit "Add to Cart";
            saysAddToCart := true; locked := true |}).
Proof. vm_compute. reflexivity. Qed.

Example scenario_C :
  handler (H:=stubHost noElement) exampleConfig
    (worldOf (inr (okResponse noButtonPage)) true) None [] =
  (inr (HandlerSuccess false
          {| exists_ := false; text := []; saysAddToCart := false;
             locked := true |}),
   [Fetched (targetUrl exampleConfig)]).
Proof. vm_compute. reflexivity. Qed.

(** ** The claims on concrete runs *)

Lemma addButtonPage_not_blank :
  ¬ Forall (λ c, isWhiteSpace c = true) addButtonPage.
Proof. intros Hall. apply Forall_cons_1 in Hall as [Hc _]. discriminate Hc. Qed.

(** Scenario A with a failing [ses.send]: one attempt, and still Success
    with [notified] false. *)
Lemma C1_notification_rule_witness :
  let host := stubHost addButton in
  let w := worldOf (inr (okResponse addButtonPage)) false in
  fetch w (targetUrl exampleConfig) = inr (okResponse addButtonPage)
  ∧ res_ok (okResponse addButtonPage) = true
  ∧ body_text (okResponse addButtonPage) = inr addButtonPage
  ∧ ¬ Forall (λ c, isWhiteSpace c = true) addButtonPage
  ∧ ∃ tr',
      handler (H:=host) exampleConfig w None [] =
        (inr (HandlerSuccess false (evaluate (H:=host) addButtonPage)), tr')
      ∧ length (sendAttempts tr') = 1%nat.
Proof.
  intros host w.
  split; [reflexivity|]. split; [reflexivity|]. split; [reflexivity|].
  split; [exact addButtonPage_not_blank|].
  destruct (C1_notification_rule (H:=host) exampleConfig w None []
              (okResponse addButtonPage) addButtonPage
              eq_refl eq_refl eq_refl addButtonPage_not_blank)
    as (notified & tr' & Hrun & _ & Hsend & _ & _ & Hfail & _).
  exists tr'. rewrite Hrun, (Hfail eq_refl), Hsend.
  split; reflexivity.
Defined.

(** A class attribute with [SoldOut] inside one of its tokens. *)
Lemma C2_isElementLocked_iff_witness :
  let host := stubHost noElement in
  let el := oneElement {[ "class"%string := lit "btn btn-SoldOut-v2" ]}
              (lit "Add to Cart") in
  isElementLocked (H:=host) el = true.
Proof.
  intros host el. apply (C2_isElementLocked_iff (H:=host) el).
  right. right. right. left.
  exists (lit "btn btn-SoldOut-v2"), (lit "soldout"), (lit "btn btn-"), (lit "-v2").
  split; [reflexivity|]. split; [|reflexivity].
  apply list_elem_of_further, list_elem_of_here.
Defined.

Lemma C3_saysAddToCart_witness :
  let host := stubHost (oneElement ∅ (lit "  ADD  TO CART ")) in
  let r := evaluate (H:=host) addButtonPage in
  text r = lit "ADD  TO CART" ∧ saysAddToCart r = true.
Proof.
  intros host r. split; [reflexivity|].
  destruct (C3_saysAddToCart (H:=host) addButtonPage) as (_ & _ & Hyes & _).
  apply (Hyes (lit "ADD  TO CART")); [|reflexivity].
  apply list_elem_of_further, list_elem_of_here.
Defined.

(** Scenario C. *)
Lemma C4_absent_element_witness :
  let host := stubHost noElement in
  cheerio_length (cheerio_select (Host:=host) noButtonPage "#add") = 0%nat
  ∧ evaluate (H:=host) noButtonPage =
      {| exists_ := false; text := []; saysAddToCart := false;
         locked := true |}.
Proof.
  intros host. split; [reflexivity|].
  apply (C4_absent_element (H:=host)). reflexivity.
Defined.

(** The mocked [500 Internal Server Error] of the test suite, with a
    failing [ses.send]. *)
Lemma C5_non_success_status_witness :
  let host := stubHost noElement in
  let res := failResponse 500 (lit "Internal Server Error") in
  let w := worldOf (inr res) false in
  fetch w (targetUrl exampleConfig) = inr res
  ∧ res_ok res = false
  ∧ ∃ tr',
      handler (H:=host) exampleConfig w None [] =
        (inr (HandlerFetchFail
                (lit "HTTP 500 Internal Server Error when fetching https://shop.example/item")),
         tr')
      ∧ length (sendAttempts tr') = 1%nat.
Proof.
  intros host res w. split; [reflexivity|]. split; [reflexivity|].
  destruct (C5_non_success_status (H:=host) exampleConfig w None [] res
              eq_refl eq_refl)
    as (message & tr' & Hrun & -> & _ & _ & _ & Hsend & _).
  exists tr'. rewrite Hrun. split; [reflexivity|].
  destruct Hsend as (cmd & -> & _); [|reflexivity].
  apply N.leb_le. reflexivity.
Defined.

Lemma C6_empty_body_witness :
  let host := stubHost noElement in
  let html := lit "   " in
  let w := worldOf (inr (okResponse html)) true in
  fetch w (targetUrl exampleConfig) = inr (okResponse html)
  ∧ res_ok (okResponse html) = true
  ∧ body_text (okResponse html) = inr html
  ∧ Forall (λ c, isWhiteSpace c = true) html
  ∧ ∃ tr',
      handler (H:=host) exampleConfig w None [] =
        (inr (HandlerFetchFail (lit "Received empty response from target URL")),
         tr')
      ∧ sendAttempts tr' = [].
Proof.
  intros host html w.
  assert (Forall (λ c, isWhiteSpace c = true) html) as Hws
    by (repeat constructor).
  split; [reflexivity|]. split; [reflexivity|]. split; [reflexivity|].
  split; [exact Hws|].
  destruct (C6_empty_body (H:=host) exampleConfig w None []
              (okResponse html) html eq_refl eq_refl eq_refl Hws)
    as (tr' & Hrun & Hsend).
  exists tr'. rewrite Hrun. split; [reflexivity | exact Hsend].
Defined.

(** C7, as stated, fails: an address with a character outside ASCII
    (here U+00E9) passes the pattern, and validation returns the
    configuration on every host whose URL parser accepts the target. *)
Lemma C7_non_ascii_address_accepted :
  let url := lit "https://shop.example/item" in
  let to := [233] ++ lit "@example.com" in
  let from := lit "from@example.com" in
  ¬ Forall (λ c, c < 128) to
  ∧ emailRegex_test to = true
  ∧ ∀ host : Host,
      URL_parses url = true →
      validateEnvironment (envOf url to from) =
        inr {| region := lit "us-east-1"; targetUrl := url;
               toEmail := to; fromEmail := from |}.
Proof.
  intros url to from. split; [|split].
  - intros Hall. apply Forall_cons_1 in Hall as [Hc _]. vm_compute in Hc.
    discriminate Hc.
  - vm_compute. reflexivity.
  - intros host Hurl. unfold validateEnvironment.
    change (envOf url to from !! "AWS_REGION"%string) with (@None (list N)).
    change (envOf url to from !! "AWS_DEFAULT_REGION"%string)
      with (@None (list N)).
    change (envOf url to from !! "TARGET_URL"%string) with (Some url).
    change (envOf url to from !! "TO_EMAIL"%string) with (Some to).
    change (envOf url to from !! "FROM_EMAIL"%string) with (Some from).
    cbv zeta. cbn [truthy url to from lit app negb orb default orElse].
    change (URL_parses _) with (URL_parses url). rewrite Hurl.
    reflexivity.
Qed.

Lemma C7_validateEnvironment_witness :
  let host := stubHost noElement in
  let env := envOf (lit "https://shop.example/item") (lit "to@example")
               (lit "from@example.com") in
  let w := worldOf (inr (okResponse addButtonPage)) true in
  ¬ emailShaped (lit "to@example")
  ∧ invoke (H:=host) env w None =
      (inl (newError "TO_EMAIL must be a valid email address"), []).
Proof.
  intros host env w.
  assert (¬ emailShaped (lit "to@example")) as Hshape.
  { intros Hs. apply PatternFacts.emailRegex_test_spec in Hs.
    vm_compute in Hs. discriminate Hs. }
  split; [exact Hshape|].
  destruct (C7_validateEnvironment (H:=host) env) as (Hthrows & _ & Hinvoke).
  apply Hinvoke. reflexivity.
Defined.

(** The rejected request of the test suite, with a failing [ses.send]. *)
Lemma C8_never_throws_witness :
  let host := stubHost noElement in
  let err := ErrorObject (lit "Error") (lit "Network down") in
  let w := worldOf (inl err) false in
  fetch w (targetUrl exampleConfig) = inl err
  ∧ ∃ tr',
      handler (H:=host) exampleConfig w None [] =
        (inr (HandlerError (lit "Network down")), tr')
      ∧ length (sendAttempts tr') = 1%nat.
Proof.
  intros host err w. split; [reflexivity|].
  destruct (C8_never_throws (H:=host) exampleConfig w None []) as [_ Hthrown].
  destruct (Hthrown err (or_introl eq_refl))
    as (error & tr' & Hrun & -> & _ & Hsend).
  exists tr'. rewrite Hrun, Hsend. split; reflexivity.
Defined.

(** Scenario A twice: a first run that delivers and a later one, from
    another event and clock, that does not. *)
Lemma C9_evaluator_deterministic_witness :
  let host := stubHost addButton in
  let w1 := worldOf (inr (okResponse addButtonPage)) true in
  let w2 := {| fetch := λ _, inr (okResponse addButtonPage);
               ses_send := λ _, inl (OtherValue (lit "quota"));
               now := 1700000360000 |} in
  ¬ Forall (λ c, isWhiteSpace c = true) addButtonPage
  ∧ ∃ notified1 notified2 result,
      (handler (H:=host) exampleConfig w1 None []).1
        = inr (HandlerSuccess notified1 result)
      ∧ (handler (H:=host) exampleConfig w2 (Some (lit "aws.events"))
           [Fetched (lit "https://shop.example/item")]).1
        = inr (HandlerSuccess notified2 result)
      ∧ exists_ result = true ∧ saysAddToCart result = true
      ∧ locked result = false.
Proof.
  intros host w1 w2. split; [exact addButtonPage_not_blank|].
  destruct (C9_evaluator_deterministic (H:=host) exampleConfig addButtonPage
              w1 w2 None (Some (lit "aws.events")) []
              [Fetched (lit "https://shop.example/item")]
              (okResponse addButtonPage) (okResponse addButtonPage)
              eq_refl eq_refl eq_refl eq_refl eq_refl eq_refl
              addButtonPage_not_blank)
    as (n1 & n2 & result & H1 & H2 & ->).
  exists n1, n2, (evaluate (H:=host) addButtonPage).
  split; [exact H1|]. split; [exact H2|]. repeat split; reflexivity.
Defined.

(** The environment of the test suite: both addresses set to [""]. *)
Lemma C10_empty_as_absent_witness :
  let host := stubHost noElement in
  let env := <["AWS_REGION"%string := []]>
               (envOf (lit "https://shop.example/item") [] []) in
  let valid := <["AWS_REGION"%string := []]>
                 (envOf (lit "https://shop.example/item")
                    (lit "to@example.com") (lit "from@example.com")) in
  env !! "TO_EMAIL"%string = Some []
  ∧ validateEnvironment (H:=host) env =
      inl (newError
             "TO_EMAIL and FROM_EMAIL environment variables are required")
  ∧ validateEnvironment (H:=host) (delete "AWS_REGION"%string env) =
      validateEnvironment (H:=host) env
  ∧ unset valid "AWS_REGION" ∧ unset valid "AWS_DEFAULT_REGION"
  ∧ validateEnvironment (H:=host) valid = inr exampleConfig
  ∧ region exampleConfig = lit "us-east-1".
Proof.
  intros host env valid. split; [reflexivity|].
  destruct (C10_empty_as_absent (H:=host) env) as (_ & _ & Hreq & Hdel).
  split; [|split].
  - destruct (Hreq (or_introl eq_refl)) as [Hurl|Hemails].
    + vm_compute in Hurl. discriminate Hurl.
    + exact Hemails.
  - apply Hdel. reflexivity.
  - assert (unset valid "AWS_REGION") as Hr by (right; reflexivity).
    assert (unset valid "AWS_DEFAULT_REGION") as Hd by (left; reflexivity).
    assert (validateEnvironment (H:=host) valid = inr exampleConfig) as Hv
      by (vm_compute; reflexivity).
    split; [exact Hr|]. split; [exact Hd|]. split; [exact Hv|].
    destruct (C10_empty_as_absent (H:=host) valid) as (Hregion & _).
    exact (Hregion Hr Hd exampleConfig Hv).
Defined.

(** * Further properties of the code *)

(** ** [validateEnvironment] *)

Section ValidatedConfig.
Context `{Host}.
Implicit Types (env : gmap string (list N)).

Lemma orElse_ne_nil (v : option (list N)) (d : list N) :
  d ≠ [] → orElse v d ≠ [].
Proof. by destruct v as [[|? ?]|]. Qed.

Lemma unset_Some env name (s : list N) :
  env !! name = Some s → s ≠ [] → ¬ unset env name.
Proof. intros Hs Hne [Hn|Hn]; rewrite Hs in Hn; congruence. Qed.

(** X1. A configuration that validation returns satisfies the checks: no
    field is empty, the target URL parses and both addresses have the
    shape [local@domain.tld]. *)
Theorem validated_config_invariant env config :
  validateEnvironment env = inr config →
  region config ≠ []
  ∧ targetUrl config ≠ []
  ∧ toEmail config ≠ []
  ∧ fromEmail config ≠ []
  ∧ URL_parses (targetUrl config) = true
  ∧ emailShaped (toEmail config)
  ∧ emailShaped (fromEmail config).
Proof.
  unfold validateEnvironment. cbv zeta.
  destruct (env !! "TARGET_URL"%string) as [[|c u]|]; simpl; try done.
  destruct (env !! "TO_EMAIL"%string) as [[|c1 a1]|]; simpl; try done.
  destruct (env !! "FROM_EMAIL"%string) as [[|c2 a2]|]; simpl; try done.
  destruct (URL_parses (c :: u)) eqn:Hp; simpl; try done.
  destruct (emailRegex_test (c1 :: a1)) eqn:He1; simpl; try done.
  destruct (emailRegex_test (c2 :: a2)) eqn:He2; simpl; try done.
  intros [= <-]. simpl.
  apply PatternFacts.emailRegex_test_spec in He1, He2.
  split; [by do 2 apply orElse_ne_nil|]. done.
Qed.

(** X2. The checks run in a fixed order and the first failing one
    decides the error: a missing target URL, then a missing address, then
    the URL syntax, then the recipient's shape, then the sender's. *)
Theorem validateEnvironment_error_priority env error :
  validateEnvironment env = inl error →
  (unset env "TARGET_URL"
   ∧ error = newError "TARGET_URL environment variable is required")
  ∨ (¬ unset env "TARGET_URL"
     ∧ (unset env "TO_EMAIL" ∨ unset env "FROM_EMAIL")
     ∧ error = newError
         "TO_EMAIL and FROM_EMAIL environment variables are required")
  ∨ (∃ u a b,
       env !! "TARGET_URL"%string = Some u
       ∧ env !! "TO_EMAIL"%string = Some a
       ∧ env !! "FROM_EMAIL"%string = Some b
       ∧ u ≠ [] ∧ a ≠ [] ∧ b ≠ []
       ∧ ((URL_parses u = false
           ∧ error = newError "TARGET_URL must be a valid URL")
          ∨ (URL_parses u = true ∧ ¬ emailShaped a
             ∧ error = newError "TO_EMAIL must be a valid email address")
          ∨ (URL_parses u = true ∧ emailShaped a ∧ ¬ emailShaped b
             ∧ error =
                 newError "FROM_EMAIL must be a valid email address"))).
Proof.
  unfold validateEnvironment, unset. cbv zeta.
  destruct (env !! "TARGET_URL"%string) as [[|c u]|] eqn:Hu; simpl;
    [intros [= <-]; left; split; [by right|done] |
    | intros [= <-]; left; split; [by left|done]].
  assert (¬ (Some (c :: u) = None ∨ Some (c :: u) = Some [])) as Hset
    by (by intros [?|?]).
  destruct (env !! "TO_EMAIL"%string) as [[|c1 a1]|] eqn:Ha1; simpl;
    [intros [= <-]; right; left; split; [done|]; split; [left; by right|done] |
    | intros [= <-]; right; left; split; [done|]; split; [left; by left|done]].
  destruct (env !! "FROM_EMAIL"%string) as [[|c2 a2]|] eqn:Ha2; simpl;
    [intros [= <-]; right; left; split; [done|]; split; [right; by right|done] |
    | intros [= <-]; right; left; split; [done|]; split; [right; by left|done]].
  intros Herr. right. right. exists (c :: u), (c1 :: a1), (c2 :: a2).
  repeat (split; [done|]). revert Herr.
  destruct (URL_parses (c :: u)) eqn:Hp; simpl;
    [|intros [= <-]; by left].
  destruct (emailRegex_test (c1 :: a1)) eqn:He1; simpl; cycle 1.
  { intros [= <-]. right. left. rewrite <- PatternFacts.emailRegex_test_spec.
    split; [done|]. split; [|done]. by rewrite He1. }
  destruct (emailRegex_test (c2 :: a2)) eqn:He2; simpl; [done|].
  intros [= <-]. right. right. rewrite <- !PatternFacts.emailRegex_test_spec.
  split; [done|]. split; [done|]. split; [|done]. by rewrite He2.
Qed.

(** X3. The region is [AWS_REGION] when that is set and not empty, and
    otherwise [AWS_DEFAULT_REGION] when that is set and not empty. *)
Theorem region_resolution env config :
  validateEnvironment env = inr config →
  (∀ r, env !! "AWS_REGION"%string = Some r → r ≠ [] → region config = r)
  ∧ (unset env "AWS_REGION" →
     ∀ r, env !! "AWS_DEFAULT_REGION"%string = Some r → r ≠ [] →
          region config = r).
Proof.
  intros Hv. apply validateEnvironment_returns in Hv as (_ & _ & _ & ->).
  split.
  - intros r -> Hr. by destruct r.
  - intros Hu r Hd Hr. rewrite (orElse_unset _ _ _ Hu), Hd. by destruct r.
Qed.

End ValidatedConfig.

(** ** The e-mail pattern *)

Lemma filter_at_emailAtom (l : list N) :
  Forall emailAtom l → filter (λ c, c = 64) l = [].
Proof.
  induction 1 as [|c l [_ Hc] _ IH]; [done|].
  by rewrite filter_cons_False.
Qed.

Lemma emailAtom_not_white (l : list N) :
  Forall emailAtom l → Forall (λ c, isWhiteSpace c = false) l.
Proof. intros Hl. eapply Forall_impl; [exact Hl|]. by intros c [? _]. Qed.

Lemma length_ne_nil (l : list N) : l ≠ [] → (1 ≤ length l)%nat.
Proof. destruct l; simpl; [done | lia]. Qed.

(** X4. An address the pattern accepts has exactly one "@", no white
    space, and at least five code units. *)
Theorem emailRegex_accepts_only (s : jsstring) :
  emailRegex_test s = true →
  length (filter (λ c, c = 64) s) = 1%nat
  ∧ Forall (λ c, isWhiteSpace c = false) s
  ∧ (5 ≤ length s)%nat.
Proof.
  intros (l & d & t & -> & Hl & Hd & Ht & Al & Ad & At)
    %PatternFacts.emailRegex_test_spec.
  split; [|split].
  - rewrite !filter_app, (filter_at_emailAtom l), (filter_at_emailAtom d),
      (filter_at_emailAtom t) by done.
    reflexivity.
  - rewrite !Forall_app.
    repeat split; try (by apply emailAtom_not_white); by repeat constructor.
  - apply length_ne_nil in Hl, Hd, Ht. rewrite !length_app. simpl. lia.
Qed.

(** ** The evaluator's text and phrase test *)

Lemma trimStart_split (s : jsstring) :
  ∃ pre, s = pre ++ trimStart s ∧ Forall (λ c, isWhiteSpace c = true) pre.
Proof.
  induction s as [|c s (pre & Heq & Hpre)]; simpl.
  - by exists [].
  - destruct (isWhiteSpace c) eqn:Hc.
    + exists (c :: pre). split; [by rewrite Heq at 1 | by constructor].
    + by exists [].
Qed.

Lemma trimStart_head (s : jsstring) (c : N) :
  head (trimStart s) = Some c → isWhiteSpace c = false.
Proof.
  induction s as [|b s IH]; simpl; [done|].
  destruct (isWhiteSpace b) eqn:Hb; [done|]. simpl. by intros [= <-].
Qed.

Lemma trimEnd_split (s : jsstring) :
  ∃ suf, s = trimEnd s ++ suf ∧ Forall (λ c, isWhiteSpace c = true) suf.
Proof.
  unfold trimEnd. destruct (trimStart_split (reverse s)) as (pre & Heq & Hpre).
  exists (reverse pre). split; [|by apply Forall_reverse].
  rewrite <- reverse_app, <- Heq. by rewrite reverse_involutive.
Qed.

Lemma trimEnd_last (s : jsstring) (c : N) :
  last (trimEnd s) = Some c → isWhiteSpace c = false.
Proof. unfold trimEnd. rewrite last_reverse. apply trimStart_head. Qed.

(** [trim] removes white space at the two ends and nothing else. *)
Lemma trim_split (s : jsstring) :
  ∃ pre suf,
    s = pre ++ trim s ++ suf
    ∧ Forall (λ c, isWhiteSpace c = true) pre
    ∧ Forall (λ c, isWhiteSpace c = true) suf.
Proof.
  unfold trim. destruct (trimStart_split s) as (pre & Heq & Hpre).
  destruct (trimEnd_split (trimStart s)) as (suf & Heq' & Hsuf).
  exists pre, suf. by rewrite <- Heq', <- Heq.
Qed.

Lemma trim_head (s : jsstring) (c : N) :
  head (trim s) = Some c → isWhiteSpace c = false.
Proof.
  unfold trim. destruct (trimEnd_split (trimStart s)) as (suf & Heq & _).
  intros Hc. apply (trimStart_head s). rewrite Heq.
  destruct (trimEnd (trimStart s)); [done|]. exact Hc.
Qed.

Section EvaluatorText.
Context `{Host}.

(** X5. The reported text is the element's text with white space removed
    at the two ends and nothing else: it neither starts nor ends with a
    white-space code unit, and the element's text is the reported text
    between two runs of white space. *)
Theorem evaluate_text_trimmed (html : jsstring) :
  let r := evaluate html in
  (∀ c, head (text r) = Some c → isWhiteSpace c = false)
  ∧ (∀ c, last (text r) = Some c → isWhiteSpace c = false)
  ∧ (exists_ r = true →
     ∃ pre suf,
       cheerio_text (cheerio_select html "#add") = pre ++ text r ++ suf
       ∧ Forall (λ c, isWhiteSpace c = true) pre
       ∧ Forall (λ c, isWhiteSpace c = true) suf).
Proof.
  unfold evaluate. cbn [text exists_].
  destruct (0 <? cheerio_length (cheerio_select html "#add"))%nat.
  - split; [apply trim_head|]. split; [apply trimEnd_last|].
    intros _. apply trim_split.
  - done.
Qed.

Lemma map_asciiLower_length (a w : jsstring) :
  map asciiLower a = w → length a = length w.
Proof. intros <-. by rewrite length_map. Qed.

(** X6. [saysAddToCart] is never true without an element: a text that
    matches has at least the nine letters of the phrase. *)
Theorem saysAddToCart_needs_element (html : jsstring) :
  let r := evaluate html in
  saysAddToCart r = true → exists_ r = true ∧ (9 ≤ length (text r))%nat.
Proof.
  unfold evaluate. cbn [saysAddToCart text exists_].
  intros Hsays.
  apply PatternFacts.addToCartRegex_test in Hsays
    as (pre & a & w1 & t & w2 & c & suf & Heq & Ha & _ & Ht & _ & Hc).
  apply map_asciiLower_length in Ha, Ht, Hc.
  apply (f_equal length) in Heq. rewrite !length_app, Ha, Ht, Hc in Heq.
  simpl in Heq.
  destruct (0 <? cheerio_length (cheerio_select html "#add"))%nat.
  - split; [done | lia].
  - simpl in Heq. lia.
Qed.

End EvaluatorText.

(** X7. The phrase test is not anchored: a text that contains a matching
    text matches too, whatever surrounds it. *)
Theorem addToCart_unanchored (pre s suf : jsstring) :
  Regex.test addToCartRegex s = true →
  Regex.test addToCartRegex (pre ++ s ++ suf) = true.
Proof.
  rewrite !RegexFacts.test_spec.
  intros (p & m & q & -> & Hm). exists (pre ++ p), m, (q ++ suf).
  split; [|done]. by rewrite <- !(assoc_L (++)).
Qed.

(** ** [isElementLocked] *)

Section LockedSignals.
Context `{Host}.

(** X8. The verdict reads the selection's length, [:disabled] and the
    four attributes [disabled], [aria-disabled], [class], [data-locked],
    and nothing else: setting any other attribute, or changing the text,
    leaves it unchanged. *)
Theorem isElementLocked_other_attributes (el : Cheerio)
    (name : string) (value newText : jsstring) :
  name ∉ ["disabled"; "aria-disabled"; "class"; "data-locked"]%string →
  isElementLocked
    {| cheerio_length := cheerio_length el;
       cheerio_is := cheerio_is el;
       cheerio_attribs := <[name := value]> (cheerio_attribs el);
       cheerio_text := newText |}
  = isElementLocked el.
Proof.
  intros Hname. unfold isElementLocked, attr. cbn [cheerio_length
    cheerio_is cheerio_attribs].
  rewrite !lookup_insert_ne; [done|..];
    intros ->; apply Hname; repeat constructor.
Qed.

(** X9. On ASCII attribute values the signals ignore letter case, and a
    class signal counts anywhere in the attribute, inside a longer class
    name too: the element is locked when its class, lower-cased, contains
    one of the four words, or when [aria-disabled] or [data-locked] is
    "true" in any letter case. *)
Theorem isElementLocked_ascii_signals (el : Cheerio) (v : jsstring) :
  Forall (λ c, c < 128) v →
  (attr el "class" = Some v →
   (∃ c, c ∈ lockedClasses ∧ includes c (map asciiLower v) = true) →
   isElementLocked el = true)
  ∧ (attr el "aria-disabled" = Some v → map asciiLower v = lit "true" →
     isElementLocked el = true)
  ∧ (attr el "data-locked" = Some v → map asciiLower v = lit "true" →
     isElementLocked el = true).
Proof.
  intros Hv. pose proof (toLowerCase_ascii v Hv) as Hlow.
  assert (orElse (Some v) [] = v) as Hor by (by destruct v).
  unfold isElementLocked.
  destruct (cheerio_length el =? 0)%nat; [done|]. cbv zeta.
  split; [|split].
  - intros -> (c & Hc & Hinc). rewrite Hor, Hlow.
    assert (existsb (λ c, includes c (map asciiLower v)) lockedClasses = true)
      as ->.
    { apply existsb_exists. exists c. by rewrite <- list_elem_of_In. }
    by rewrite orb_true_r.
  - intros -> Htrue.
    rewrite Hor, Hlow, Htrue, (bool_decide_eq_true_2 (lit "true" = lit "true"))
      by done.
    by rewrite !orb_true_r.
  - intros -> Htrue.
    rewrite Hor, Hlow, Htrue, (bool_decide_eq_true_2 (lit "true" = lit "true"))
      by done.
    by rewrite !orb_true_r.
Qed.

End LockedSignals.

(** ** The handler's effects and responses *)

(** Splits a run of the handler into its five paths. *)
Ltac handler_paths config w event tr :=
  let err := fresh "err" in
  let res := fresh "res" in
  let html := fresh "html" in
  let Hf := fresh "Hf" in
  let Hok := fresh "Hok" in
  let Hb := fresh "Hb" in
  let Hws := fresh "Hws" in
  destruct (fetch w (targetUrl config)) as [err|res] eqn:Hf;
  [ rewrite (handler_fetch_rejects config w event tr err Hf)
  | destruct (res_ok res) eqn:Hok;
    [ destruct (body_text res) as [err|html] eqn:Hb;
      [ rewrite (handler_text_rejects config w event tr res err Hf Hok Hb)
      | destruct (decide (Forall (λ c, isWhiteSpace c = true) html))
          as [Hws|Hws];
        [ rewrite (handler_blank_body config w event tr res html
                     Hf Hok Hb Hws)
        | rewrite (handler_evaluated config w event tr res html Hf Hok Hb
                     (proj2 (not_iff_compat (trim_nil_iff html)) Hws)) ] ]
    | rewrite (handler_not_ok config w event tr res Hf Hok) ] ].

Section HandlerEffects.
Context `{Host}.
Implicit Types (config : ValidatedConfig) (w : World)
  (event : option (list N)) (tr : list Effect).

(** X10. Every invocation requests the configured URL once, before
    anything else, and then attempts at most one e-mail, addressed to the
    configured recipient from the configured sender. The effects that
    were there before are kept. *)
Theorem handler_effects_shape config w event tr :
  ∃ sends,
    (handler config w event tr).2 =
      tr ++ Fetched (targetUrl config) :: map SendAttempted sends
    ∧ (length sends ≤ 1)%nat
    ∧ Forall (λ cmd, ToAddresses cmd = [toEmail config]
                     ∧ Source cmd = fromEmail config) sends.
Proof.
  handler_paths config w event tr; cbn [snd].
  - exists [checkFailedEmail config w event err].
    split; [done|]. split; [done|]. by repeat constructor.
  - exists [checkFailedEmail config w event err].
    split; [done|]. split; [done|]. by repeat constructor.
  - exists []. split; [done|]. split; [simpl; lia | constructor].
  - destruct (_ && _ && _).
    + exists [stockAvailableEmail config w event (evaluate html)].
      split; [done|]. split; [done|]. by repeat constructor.
    + exists []. split; [done|]. split; [simpl; lia | constructor].
  - destruct (500 <=? status res).
    + exists [serverErrorEmail config res].
      split; [done|]. split; [done|]. by repeat constructor.
    + exists []. split; [done|]. split; [simpl; lia | constructor].
Qed.

(** X11. Which variant the handler returns is decided by the request
    alone: Success when it resolves with a success status and a body that
    is not blank, FetchFailure when it resolves with another status or
    with a blank body, RuntimeFailure when [fetch] or [res.text()]
    rejects. *)
Theorem handler_response_classification config w event tr r tr' :
  handler config w event tr = (inr r, tr') →
  (ok r = true ↔
     ∃ res html,
       fetch w (targetUrl config) = inr res ∧ res_ok res = true
       ∧ body_text res = inr html
       ∧ ¬ Forall (λ c, isWhiteSpace c = true) html)
  ∧ ((∃ message, r = HandlerFetchFail message) ↔
       ∃ res,
         fetch w (targetUrl config) = inr res
         ∧ (res_ok res = false
            ∨ (res_ok res = true
               ∧ ∃ html, body_text res = inr html
                         ∧ Forall (λ c, isWhiteSpace c = true) html)))
  ∧ ((∃ error, r = HandlerError error) ↔
       (∃ err, fetch w (targetUrl config) = inl err)
       ∨ (∃ res err,
            fetch w (targetUrl config) = inr res ∧ res_ok res = true
            ∧ body_text res = inl err)).
Proof.
  handler_paths config w event tr; intros [= <- <-]; cbn [ok].
  - split; [|split].
    + split; [done | by intros (? & ? & ? & _)].
    + split; [by intros [? ?] | by intros (? & ? & _)].
    + split; [intros _; left; by eexists | intros _; by eexists].
  - split; [|split].
    + split; [done|]. intros (? & ? & [= <-] & _ & ? & _). congruence.
    + split; [by intros [? ?]|].
      intros (? & [= <-] & [?|(_ & ? & ? & _)]); congruence.
    + split; [intros _; right; by eexists _, _ | intros _; by eexists].
  - split; [|split].
    + split; [done|]. intros (? & ? & [= <-] & _ & ? & ?). congruence.
    + split; [intros _ | intros _; by eexists].
      eexists. split; [done|]. right. split; [done|]. by eexists.
    + split; [by intros [? ?]|].
      intros [(? & ?)|(? & ? & [= <-] & _ & ?)]; congruence.
  - split; [|split].
    + split; [intros _; by eexists _, _ | done].
    + split; [by intros [? ?]|].
      intros (? & [= <-] & [?|(_ & ? & ? & ?)]); congruence.
    + split; [by intros [? ?]|].
      intros [(? & ?)|(? & ? & [= <-] & _ & ?)]; congruence.
  - split; [|split].
    + split; [done|]. intros (? & ? & [= <-] & ? & _). congruence.
    + split; [intros _ | intros _; by eexists].
      eexists. split; [done|]. by left.
    + split; [by intros [? ?]|].
      intros [(? & ?)|(? & ? & [= <-] & ? & _)]; congruence.
Qed.

End HandlerEffects.

Section HandlerOutcomes.
Context `{Host}.
Implicit Types (config : ValidatedConfig) (w : World)
  (event : option (list N)) (tr : list Effect).

(** X12. [notified] is never true by accident: when the response says
    so, the element exists, says "add to cart" and is not locked, and the
    run attempted exactly one e-mail, the stock alert to the configured
    recipient, which [ses.send] accepted. *)
Theorem notified_sound config w event tr result tr' :
  handler config w event tr = (inr (HandlerSuccess true result), tr') →
  exists_ result = true ∧ saysAddToCart result = true
  ∧ locked result = false
  ∧ ∃ cmd,
      tr' = tr ++ [Fetched (targetUrl config); SendAttempted cmd]
      ∧ Subject cmd = stockAvailableSubject
      ∧ ToAddresses cmd = [toEmail config]
      ∧ delivered w cmd = true.
Proof.
  handler_paths config w event tr; try done.
  intros [= Hn <- <-].
  apply andb_true_iff in Hn as [Hav Hdel]. rewrite Hav.
  apply andb_true_iff in Hav as [[He Hs]%andb_true_iff Hl%negb_true_iff].
  repeat (split; [done|]).
  by exists (stockAvailableEmail config w event (evaluate html)).
Qed.

(** X13. A rejected request is reported by e-mail as a timeout exactly
    when the thrown value is an [Error] whose name is "AbortError", and
    as a system error otherwise; the response has the same shape in both
    cases. *)
Theorem abort_reported_as_timeout config w event tr err :
  fetch w (targetUrl config) = inl err →
  ∃ cmd,
    handler config w event tr =
      (inr (HandlerError (errorMessageOf err)),
       tr ++ [Fetched (targetUrl config); SendAttempted cmd])
    ∧ (Subject cmd = lit "Stock check timeout" ↔
         ∃ message, err = ErrorObject (lit "AbortError") message)
    ∧ (Subject cmd = lit "Stock check system error" ↔
         ¬ ∃ message, err = ErrorObject (lit "AbortError") message).
Proof.
  intros Hf. exists (checkFailedEmail config w event err).
  split; [by apply handler_fetch_rejects|].
  unfold checkFailedEmail, isAbortErrorOf. cbn [Subject newSendEmailCommand].
  destruct err as [name message|s].
  - destruct (decide (name = lit "AbortError")) as [->|Hname].
    + rewrite bool_decide_eq_true_2 by done. split.
      * split; [intros _; by eexists | done].
      * split; [done | intros Hno; destruct Hno; by eexists].
    + rewrite bool_decide_eq_false_2 by done. split.
      * split; [done | intros (m & [= -> _]); done].
      * split; [intros _ (m & [= -> _]); done | done].
  - split.
    + split; [done | by intros (m & ?)].
    + split; [by intros _ (m & ?) | done].
Qed.

(** X14. Delivery failures stay out of the result: two worlds that
    answer the page request alike and show the same clock give the same
    effects and the same response up to the [notified] flag, whatever
    [ses.send] does in each. *)
Theorem delivery_independent config w1 w2 event tr :
  fetch w1 (targetUrl config) = fetch w2 (targetUrl config) →
  now w1 = now w2 →
  ∃ r1 r2 tr',
    handler config w1 event tr = (inr r1, tr')
    ∧ handler config w2 event tr = (inr r2, tr')
    ∧ eraseNotified r1 = eraseNotified r2.
Proof.
  intros Hfetch Hnow.
  assert (∀ err, checkFailedEmail config w1 event err
                 = checkFailedEmail config w2 event err) as Hfail.
  { intros err. unfold checkFailedEmail, executionIdOf. by rewrite Hnow. }
  assert (∀ result, stockAvailableEmail config w1 event result
                    = stockAvailableEmail config w2 event result) as Hstock.
  { intros result. unfold stockAvailableEmail, executionIdOf.
    by rewrite Hnow. }
  handler_paths config w1 event tr; symmetry in Hfetch.
  - rewrite (handler_fetch_rejects _ _ _ _ _ Hfetch), Hfail.
    by eexists _, _, _.
  - rewrite (handler_text_rejects _ _ _ _ _ _ Hfetch Hok Hb), Hfail.
    by eexists _, _, _.
  - rewrite (handler_blank_body _ _ _ _ _ _ Hfetch Hok Hb Hws).
    by eexists _, _, _.
  - rewrite (handler_evaluated _ _ _ _ _ _ Hfetch Hok Hb
               (proj2 (not_iff_compat (trim_nil_iff html)) Hws)), Hstock.
    by eexists _, _, _.
  - rewrite (handler_not_ok _ _ _ _ _ Hfetch Hok).
    by eexists _, _, _.
Qed.

(** X15. From the environment to the effects: when validation succeeds,
    the one request goes to [TARGET_URL] and every e-mail attempt is
    addressed to [TO_EMAIL] from [FROM_EMAIL], as the environment gives
    them; the invocation returns a response. *)
Theorem invoke_uses_environment (env : gmap string (list N)) config w event :
  validateEnvironment env = inr config →
  ∃ url to from r sends,
    env !! "TARGET_URL"%string = Some url
    ∧ env !! "TO_EMAIL"%string = Some to
    ∧ env !! "FROM_EMAIL"%string = Some from
    ∧ invoke env w event = (inr r, Fetched url :: map SendAttempted sends)
    ∧ (length sends ≤ 1)%nat
    ∧ Forall (λ cmd, ToAddresses cmd = [to] ∧ Source cmd = from) sends.
Proof.
  intros Hv. unfold invoke. rewrite Hv.
  apply validateEnvironment_returns in Hv as (Hu & Ha & Hb & _).
  exists (targetUrl config), (toEmail config), (fromEmail config).
  handler_paths config w event (@nil Effect).
  - exists (HandlerError (errorMessageOf err)),
      [checkFailedEmail config w event err].
    repeat (split; [done|]). by repeat constructor.
  - exists (HandlerError (errorMessageOf err)),
      [checkFailedEmail config w event err].
    repeat (split; [done|]). by repeat constructor.
  - eexists _, []. repeat (split; [done|]).
    split; [simpl; lia | constructor].
  - destruct (exists_ (evaluate html) && saysAddToCart (evaluate html)
              && negb (locked (evaluate html))).
    + eexists _, [stockAvailableEmail config w event (evaluate html)].
      repeat (split; [done|]). by repeat constructor.
    + eexists _, []. repeat (split; [done|]).
      split; [simpl; lia | constructor].
  - destruct (500 <=? status res).
    + eexists _, [serverErrorEmail config res].
      repeat (split; [done|]). by repeat constructor.
    + eexists _, []. repeat (split; [done|]).
      split; [simpl; lia | constructor].
Qed.

End HandlerOutcomes.

(** ** The further properties on concrete runs *)

Lemma exampleEnv_valid :
  validateEnvironment (H:=stubHost noElement)
    (envOf (lit "https://shop.example/item") (lit "to@example.com")
       (lit "from@example.com"))
  = inr exampleConfig.
Proof. vm_compute. reflexivity. Qed.

Lemma validated_config_invariant_witness :
  let host := stubHost noElement in
  let env := envOf (lit "https://shop.example/item") (lit "to@example.com")
               (lit "from@example.com") in
  validateEnvironment (H:=host) env = inr exampleConfig
  ∧ emailShaped (lit "to@example.com")
  ∧ emailShaped (lit "from@example.com").
Proof.
  intros host env. split; [exact exampleEnv_valid|].
  destruct (validated_config_invariant (H:=host) env exampleConfig
              exampleEnv_valid) as (_ & _ & _ & _ & _ & Hto & Hfrom).
  split; [exact Hto | exact Hfrom].
Defined.

(** Both addresses are malformed: the recipient's error is the one
    reported. *)
Lemma validateEnvironment_error_priority_witness :
  let host := stubHost noElement in
  let env := envOf (lit "https://shop.example/item") (lit "to-example.com")
               (lit "from example") in
  validateEnvironment (H:=host) env =
    inl (newError "TO_EMAIL must be a valid email address")
  ∧ ¬ emailShaped (lit "to-example.com").
Proof.
  intros host env.
  assert (validateEnvironment (H:=host) env =
            inl (newError "TO_EMAIL must be a valid email address")) as Hv
    by (vm_compute; reflexivity).
  split; [exact Hv|].
  destruct (validateEnvironment_error_priority (H:=host) env _ Hv)
    as [[_ Herr] | [(_ & _ & Herr) | (u & a & b & _ & Ha & _ & _ & _ & _ & Hc)]].
  - vm_compute in Herr. discriminate Herr.
  - vm_compute in Herr. discriminate Herr.
  - vm_compute in Ha. injection Ha as <-.
    destruct Hc as [[_ Herr] | [(_ & Hshape & _) | (_ & _ & _ & Herr)]].
    + vm_compute in Herr. discriminate Herr.
    + exact Hshape.
    + vm_compute in Herr. discriminate Herr.
Defined.

(** [AWS_REGION] is empty and [AWS_DEFAULT_REGION] is not. *)
Lemma region_resolution_witness :
  let host := stubHost noElement in
  let env := <["AWS_REGION"%string := []]>
               (<["AWS_DEFAULT_REGION"%string := lit "eu-west-1"]>
                  (envOf (lit "https://shop.example/item")
                     (lit "to@example.com") (lit "from@example.com"))) in
  ∃ config,
    validateEnvironment (H:=host) env = inr config
    ∧ unset env "AWS_REGION"
    ∧ region config = lit "eu-west-1".
Proof.
  intros host env.
  destruct (validateEnvironment (H:=host) env) as [error|config] eqn:Hv.
  { vm_compute in Hv. discriminate Hv. }
  assert (unset env "AWS_REGION") as Hr by (right; reflexivity).
  exists config. split; [reflexivity|]. split; [exact Hr|].
  destruct (region_resolution (H:=host) env config Hv) as [_ Hdefault].
  apply (Hdefault Hr); [reflexivity | discriminate].
Defined.

Lemma emailRegex_accepts_only_witness :
  emailRegex_test (lit "to@example.com") = true
  ∧ length (filter (λ c, c = 64) (lit "to@example.com")) = 1%nat.
Proof.
  assert (emailRegex_test (lit "to@example.com") = true) as Ht
    by (vm_compute; reflexivity).
  split; [exact Ht|].
  destruct (emailRegex_accepts_only _ Ht) as (Hat & _ & _). exact Hat.
Defined.

Lemma evaluate_text_trimmed_witness :
  let host := stubHost addButton in
  let r := evaluate (H:=host) addButtonPage in
  exists_ r = true
  ∧ ∃ pre suf, lit " Add to Cart " = pre ++ text r ++ suf
               ∧ Forall (λ c, isWhiteSpace c = true) pre
               ∧ Forall (λ c, isWhiteSpace c = true) suf.
Proof.
  intros host r. split; [reflexivity|].
  destruct (evaluate_text_trimmed (H:=host) addButtonPage) as (_ & _ & Hsplit).
  exact (Hsplit eq_refl).
Defined.

Lemma saysAddToCart_needs_element_witness :
  let host := stubHost addButton in
  let r := evaluate (H:=host) addButtonPage in
  saysAddToCart r = true ∧ exists_ r = true ∧ (9 ≤ length (text r))%nat.
Proof.
  intros host r. split; [reflexivity|].
  apply (saysAddToCart_needs_element (H:=host) addButtonPage). reflexivity.
Defined.

(** A button that says the opposite still matches. *)
Lemma addToCart_unanchored_witness :
  Regex.test addToCartRegex (lit "Add to Cart") = true
  ∧ Regex.test addToCartRegex
      (lit "Cannot " ++ lit "Add to Cart" ++ lit " yet") = true.
Proof.
  split; [reflexivity|].
  apply (addToCart_unanchored (lit "Cannot ") (lit "Add to Cart") (lit " yet")).
  reflexivity.
Defined.

Lemma isElementLocked_other_attributes_witness :
  let host := stubHost noElement in
  ("id"%string ∉ ["disabled"; "aria-disabled"; "class"; "data-locked"]%string)
  ∧ isElementLocked (H:=host)
      {| cheerio_length := cheerio_length addButton;
         cheerio_is := cheerio_is addButton;
         cheerio_attribs := <["id"%string := lit "add"]>
                              (cheerio_attribs addButton);
         cheerio_text := lit "Sold out" |}
    = isElementLocked (H:=host) addButton.
Proof.
  intros host.
  assert ("id"%string ∉ ["disabled"; "aria-disabled"; "class";
                         "data-locked"]%string) as Hid.
  { intros Hin. repeat (apply elem_of_cons in Hin as [Heq|Hin];
                        [discriminate Heq|]).
    by apply elem_of_nil in Hin. }
  split; [exact Hid|].
  apply (isElementLocked_other_attributes (H:=host) addButton "id"
           (lit "add") (lit "Sold out") Hid).
Defined.

(** A class name that merely contains "locked". *)
Lemma isElementLocked_ascii_signals_witness :
  let host := stubHost noElement in
  let el := oneElement {[ "class"%string := lit "btn Unlocked" ]}
              (lit "Add to Cart") in
  Forall (λ c, c < 128) (lit "btn Unlocked")
  ∧ isElementLocked (H:=host) el = true.
Proof.
  intros host el.
  assert (Forall (λ c, c < 128) (lit "btn Unlocked")) as Hascii
    by (repeat constructor).
  split; [exact Hascii|].
  destruct (isElementLocked_ascii_signals (H:=host) el _ Hascii)
    as (Hclass & _ & _).
  apply Hclass; [reflexivity|].
  exists (lit "locked"). split; [|reflexivity].
  apply list_elem_of_further, list_elem_of_further, list_elem_of_here.
Defined.

(** A [404]: FetchFailure, because the request resolved with a
    non-success status. *)
Lemma handler_response_classification_witness :
  let host := stubHost noElement in
  let res := failResponse 404 (lit "Not Found") in
  let w := worldOf (inr res) true in
  ∃ r tr',
    handler (H:=host) exampleConfig w None [] = (inr r, tr')
    ∧ ok r = false
    ∧ ∃ res', fetch w (targetUrl exampleConfig) = inr res'
              ∧ (res_ok res' = false
                 ∨ (res_ok res' = true
                    ∧ ∃ html, body_text res' = inr html
                              ∧ Forall (λ c, isWhiteSpace c = true) html)).
Proof.
  intros host res w.
  destruct (handler (H:=host) exampleConfig w None []) as [[e|r] tr'] eqn:Hrun.
  { vm_compute in Hrun. discriminate Hrun. }
  exists r, tr'. split; [reflexivity|].
  destruct (handler_response_classification (H:=host) exampleConfig w None []
              r tr' Hrun) as (_ & Hfail & _).
  assert (∃ message, r = HandlerFetchFail message) as Hmsg.
  { vm_compute in Hrun. injection Hrun as <- _. by eexists. }
  split; [by destruct Hmsg as [? ->] | by apply Hfail].
Defined.

(** Scenario A with a delivered e-mail. *)
Lemma notified_sound_witness :
  let host := stubHost addButton in
  let w := worldOf (inr (okResponse addButtonPage)) true in
  ∃ result tr',
    handler (H:=host) exampleConfig w None [] =
      (inr (HandlerSuccess true result), tr')
    ∧ locked result = false
    ∧ length (sendAttempts tr') = 1%nat.
Proof.
  intros host w.
  destruct (handler (H:=host) exampleConfig w None []) as [[e|r] tr'] eqn:Hrun.
  { vm_compute in Hrun. discriminate Hrun. }
  destruct r as [[|] result|message|error];
    try (vm_compute in Hrun; discriminate Hrun).
  exists result, tr'. split; [reflexivity|].
  destruct (notified_sound (H:=host) exampleConfig w None [] result tr' Hrun)
    as (_ & _ & Hlocked & cmd & -> & _).
  split; [exact Hlocked | reflexivity].
Defined.

(** The 25 s timer fired. *)
Lemma abort_reported_as_timeout_witness :
  let host := stubHost noElement in
  let err := ErrorObject (lit "AbortError")
               (lit "The operation was aborted.") in
  let w := worldOf (inl err) true in
  fetch w (targetUrl exampleConfig) = inl err
  ∧ ∃ cmd tr',
      handler (H:=host) exampleConfig w None [] =
        (inr (HandlerError (lit "The operation was aborted.")), tr')
      ∧ sendAttempts tr' = [cmd]
      ∧ Subject cmd = lit "Stock check timeout".
Proof.
  intros host err w. split; [reflexivity|].
  destruct (abort_reported_as_timeout (H:=host) exampleConfig w None [] err
              eq_refl) as (cmd & Hrun & Htimeout & _).
  exists cmd, [Fetched (targetUrl exampleConfig); SendAttempted cmd].
  split; [exact Hrun|]. split; [reflexivity|].
  apply Htimeout. by eexists.
Defined.

(** Scenario A in a world that delivers and in one that does not. *)
Lemma delivery_independent_witness :
  let host := stubHost addButton in
  let w1 := worldOf (inr (okResponse addButtonPage)) true in
  let w2 := worldOf (inr (okResponse addButtonPage)) false in
  ∃ result tr',
    handler (H:=host) exampleConfig w1 None [] =
      (inr (HandlerSuccess true result), tr')
    ∧ handler (H:=host) exampleConfig w2 None [] =
        (inr (HandlerSuccess false result), tr').
Proof.
  intros host w1 w2.
  destruct (delivery_independent (H:=host) exampleConfig w1 w2 None []
              eq_refl eq_refl) as (r1 & r2 & tr' & H1 & H2 & Heq).
  assert (∃ result, r1 = HandlerSuccess true result) as [result ->].
  { vm_compute in H1. injection H1 as <- _. by eexists. }
  assert (∃ result', r2 = HandlerSuccess false result') as [result' ->].
  { vm_compute in H2. injection H2 as <- _. by eexists. }
  injection Heq as <-.
  exists result, tr'. split; [exact H1 | exact H2].
Defined.

Lemma invoke_uses_environment_witness :
  let host := stubHost addButton in
  let env := envOf (lit "https://shop.example/item") (lit "to@example.com")
               (lit "from@example.com") in
  let w := worldOf (inr (okResponse addButtonPage)) true in
  validateEnvironment (H:=host) env = inr exampleConfig
  ∧ ∃ r sends,
      invoke (H:=host) env w None =
        (inr r, Fetched (lit "https://shop.example/item")
                  :: map SendAttempted sends)
      ∧ Forall (λ cmd, ToAddresses cmd = [lit "to@example.com"]
                       ∧ Source cmd = lit "from@example.com") sends.
Proof.
  intros host env w.
  assert (validateEnvironment (H:=host) env = inr exampleConfig) as Hv
    by (vm_compute; reflexivity).
  split; [exact Hv|].
  destruct (invoke_uses_environment (H:=host) env exampleConfig w None Hv)
    as (url & to & from & r & sends & Hu & Ha & Hb & Hrun & _ & Hall).
  vm_compute in Hu, Ha, Hb.
  injection Hu as <-. injection Ha as <-. injection Hb as <-.
  exists r, sends. split; [exact Hrun | exact Hall].
Defined.
